(** * desktop-chat-AI: the authentication gate, the chat turn, the export and
    the message cleaner of [src/main.py] and [src/ui/components.py].

    Python values are embedded as follows.
    - [str] is a list of Unicode code points ([len] counts code points, as
      Python does); literals are written as UTF-8 text and decoded by [lit].
    - [int] is [Z].
    - A [dict] is an association list in insertion order with distinct keys.
    - Widgets are records of the attributes the code reads or writes.
    - Calls to collaborators (the API client, the clock, the random source,
      the disk) take their answers from an explicit environment. *)

From Stdlib Require Import String Ascii.
From Stdlib Require Import List ZArith NArith QArith Bool Lia.
From Equations Require Import Equations.
Import ListNotations.
Local Open Scope Z_scope.
Set Implicit Arguments.
Set Warnings "-register-all".

(* ===================================================================== *)
(** * Part I. The model                                                   *)
(* ===================================================================== *)

(** ** Python strings *)

Module Py.

Definition char := N.
Definition str := list char.

Definition chr_eqb (a b : char) : bool := N.eqb a b.

Fixpoint str_eqb (a b : str) : bool :=
  match a, b with
  | [], [] => true
  | x :: a', y :: b' => chr_eqb x y && str_eqb a' b'
  | _, _ => false
  end.

(** UTF-8 decoding of a byte sequence: it reads the literals of the source
    text (which is UTF-8) as code points, and a file written as UTF-8 back
    as text.  On the encoding of a text it is the codec's decoder; it does
    not refuse malformed input as the codec does. *)
Fixpoint utf8_decode (bs : list N) : str :=
  let cont b := N.land b 63 in
  match bs with
  | [] => []
  | b0 :: t0 =>
    if (b0 <? 128)%N then b0 :: utf8_decode t0
    else match t0 with
    | [] => [b0]
    | b1 :: t1 =>
      if (b0 <? 224)%N then
        N.lor (N.shiftl (N.land b0 31) 6) (cont b1) :: utf8_decode t1
      else match t1 with
      | [] => [b0; b1]
      | b2 :: t2 =>
        if (b0 <? 240)%N then
          N.lor (N.shiftl (N.land b0 15) 12)
                (N.lor (N.shiftl (cont b1) 6) (cont b2)) :: utf8_decode t2
        else match t2 with
        | [] => [b0; b1; b2]
        | b3 :: t3 =>
          N.lor (N.shiftl (N.land b0 7) 18)
                (N.lor (N.shiftl (cont b1) 12)
                       (N.lor (N.shiftl (cont b2) 6) (cont b3))) :: utf8_decode t3
        end
      end
    end
  end.

Definition lit (s : string) : str :=
  utf8_decode (List.map N_of_ascii (list_ascii_of_string s)).

(** UTF-8 encoding of one code point, and of a text. *)
Definition utf8_encode_char (c : char) : list N :=
  let cont x := N.lor 128 (N.land x 63) in
  if (c <? 128)%N then [c]
  else if (c <? 2048)%N then [N.lor 192 (N.shiftr c 6); cont c]
  else if (c <? 65536)%N then
    [N.lor 224 (N.shiftr c 12); cont (N.shiftr c 6); cont c]
  else
    [N.lor 240 (N.shiftr c 18); cont (N.shiftr c 12); cont (N.shiftr c 6);
     cont c].

Definition utf8_encode (s : str) : list N :=
  List.flat_map utf8_encode_char s.

(** A code point the UTF-8 codec accepts: a Unicode scalar value, that is,
    below 1114112 and not a surrogate. *)
Definition utf8_encodable (c : char) : bool :=
  (c <? 1114112)%N && negb ((55296 <=? c)%N && (c <=? 57343)%N).

(** Code points the source names. *)
Definition c_lt : char := 60%N.       (* less-than sign *)
Definition c_gt : char := 62%N.       (* greater-than sign *)
Definition c_quote : char := 34%N.    (* double quote *)
Definition c_bslash : char := 92%N.   (* backslash *)
Definition c_zero : char := 48%N.     (* digit zero *)
Definition c_nine : char := 57%N.     (* digit nine *)

(** [str(n)] for an [int]: the decimal numeral, with a minus sign when
    negative. *)
Definition digit_char (d : N) : char := (c_zero + d)%N.

(** The decimal digits of [n], most significant first, in front of [acc];
    [fuel] bounds the number of digits. *)
Fixpoint digits_of (fuel : nat) (n : N) (acc : str) : str :=
  match fuel with
  | O => acc
  | S f =>
    if (n <? 10)%N then digit_char n :: acc
    else digits_of f (n / 10)%N (digit_char (n mod 10)%N :: acc)
  end.

Definition str_of_N (n : N) : str := digits_of (S (N.to_nat (N.log2 n))) n [].

Definition str_of_int (z : Z) : str :=
  match z with
  | Z0 => str_of_N 0
  | Zpos p => str_of_N (Npos p)
  | Zneg p => 45%N :: str_of_N (Npos p)
  end.

(** [c] is one of the ten ASCII digits. *)
Definition is_ascii_digit (c : char) : bool :=
  (c_zero <=? c)%N && (c <=? c_nine)%N.

(** [str.isdigit()]: non-empty and every character is a digit.  Below 128
    the digits are exactly the ten ASCII digits; which code points above count as digits
    is the Unicode database's table, taken as the parameter
    [unicode_digit]. *)
Definition char_isdigit (unicode_digit : char -> bool) (c : char) : bool :=
  if (c <? 128)%N then is_ascii_digit c else unicode_digit c.

Definition isdigit (unicode_digit : char -> bool) (s : str) : bool :=
  match s with
  | [] => false
  | _ => forallb (char_isdigit unicode_digit) s
  end.

(** [len(s)]. *)
Definition len (s : str) : Z := Z.of_nat (List.length s).

(** Truthiness of an optional string ([None] and the empty string are
    falsy). *)
Definition truthy (s : option str) : bool :=
  match s with
  | None => false
  | Some [] => false
  | Some _ => true
  end.

End Py.

Import Py.


(** ** [ui/components.py]: [MessageBubble.clean_message] *)

Module Bubble.

(** The longest prefix of [s] made of characters other than the
    greater-than sign (the greedy run of the class [[^>]]), and what
    follows it. *)
Fixpoint span_not_gt (s : str) : str * str :=
  match s with
  | [] => ([], [])
  | c :: r =>
    if chr_eqb c c_gt then ([], s)
    else let (body, rest) := span_not_gt r in (c :: body, rest)
  end.

(** The pattern [<[^>]+>] tried at the very start of [s]: a less-than sign,
    one or more characters that are not a greater-than sign, a greater-than
    sign.  The answer is the text left after the match.  The run is greedy
    and giving characters back cannot help, since every character given
    back is not a greater-than sign. *)
Definition match_tag (s : str) : option str :=
  match s with
  | [] => None
  | c :: r =>
    if chr_eqb c c_lt then
      match span_not_gt r with
      | (_ :: _, _ :: tail) => Some tail
      | _ => None
      end
    else None
  end.

Definition inspect {A} (a : A) : {b : A | a = b} := exist _ a eq_refl.

Lemma span_not_gt_length (s : str) :
  (length (snd (span_not_gt s)) <= length s)%nat.
Proof.
  induction s as [|c r IH]; simpl; [lia|].
  destruct (chr_eqb c c_gt); simpl; [lia|].
  destruct (span_not_gt r); simpl in *; lia.
Qed.

Lemma match_tag_shorter (s tail : str) :
  match_tag s = Some tail -> (length tail < length s)%nat.
Proof.
  destruct s as [|c r]; simpl; [discriminate|].
  destruct (chr_eqb c c_lt); [|discriminate].
  pose proof (span_not_gt_length r) as H.
  destruct (span_not_gt r) as [[|b body] [|g after]]; try discriminate.
  intros E; inversion E; subst; simpl in *; lia.
Qed.

(** [re.sub(pattern, '', message)]: scan from the left; where the pattern
    matches, drop the match and go on after it; elsewhere keep the character
    and go on with the next one. *)
Equations sub_tags (s : str) : str by wf (length s) lt :=
  sub_tags [] := [];
  sub_tags (c :: r) with inspect (match_tag (c :: r)) := {
    | exist _ (Some after) _ := sub_tags after;
    | exist _ None _ := c :: sub_tags r }.
Next Obligation.
  match goal with
  | H : _ = Some ?a |- (_ < S (length ?r))%nat =>
    exact (@match_tag_shorter (_ :: r) a H)
  end.
Qed.

Definition clean_message (message : str) : str := sub_tags message.

End Bubble.


(** ** Python values, exceptions and the runtime's own tables *)

Module Value.

(** The values a decoded JSON document is made of; a [dict] keeps its keys in
    insertion order. *)
Inductive json : Type :=
| JNull
| JBool (b : bool)
| JInt (z : Z)
| JStr (s : str)
| JList (items : list json)
| JDict (pairs : list (str * json)).

Definition dict := list (str * json).

(** Induction on values that reaches the items of a list and the values of
    a dictionary. *)
Section NestedInduction.

Variable P : json -> Prop.
Hypothesis Hnull : P JNull.
Hypothesis Hbool : forall b, P (JBool b).
Hypothesis Hint : forall z, P (JInt z).
Hypothesis Hstr : forall s, P (JStr s).
Hypothesis Hlist : forall items, Forall P items -> P (JList items).
Hypothesis Hdict :
  forall pairs, Forall (fun kv => P (snd kv)) pairs -> P (JDict pairs).

Fixpoint json_nested_ind (v : json) : P v :=
  match v with
  | JNull => Hnull
  | JBool b => Hbool b
  | JInt z => Hint z
  | JStr s => Hstr s
  | JList items =>
    @Hlist items
      ((fix go (l : list json) : Forall P l :=
          match l with
          | [] => Forall_nil P
          | x :: xs => Forall_cons x (json_nested_ind x) (go xs)
          end) items)
  | JDict pairs =>
    @Hdict pairs
      ((fix go (l : list (str * json)) : Forall (fun kv => P (snd kv)) l :=
          match l with
          | [] => Forall_nil _
          | kv :: xs => Forall_cons kv (json_nested_ind (snd kv)) (go xs)
          end) pairs)
  end.

End NestedInduction.

(** [key in d]. *)
Fixpoint dict_contains (key : str) (d : dict) : bool :=
  match d with
  | [] => false
  | (k, _) :: d' => str_eqb k key || dict_contains key d'
  end.

(** [d.get(key)], [None] when the key is absent. *)
Fixpoint dict_get (key : str) (d : dict) : option json :=
  match d with
  | [] => None
  | (k, v) :: d' => if str_eqb k key then Some v else dict_get key d'
  end.

(** [d[key] = v]: a present key keeps its place, a new key goes last. *)
Fixpoint dict_set (key : str) (v : json) (d : dict) : dict :=
  match d with
  | [] => [(key, v)]
  | (k, w) :: d' =>
    if str_eqb k key then (k, v) :: d' else (k, w) :: dict_set key v d'
  end.

(** [dict(pairs)]. *)
Definition dict_of_pairs (pairs : list (str * json)) : dict :=
  fold_left (fun d kv => dict_set (fst kv) (snd kv) d) pairs [].

Inductive exn : Type :=
| KeyError (key : str)
| IndexError
| TypeError
| AttributeError
| OSError (message : str)
| UnicodeEncodeError
| CollaboratorError (message : str).

Inductive result (A : Type) : Type :=
| Ok (a : A)
| Raise (e : exn).
Arguments Ok {A} a.
Arguments Raise {A} e.

Definition bind {A B} (r : result A) (k : A -> result B) : result B :=
  match r with
  | Ok a => k a
  | Raise e => Raise e
  end.

Notation "x <- r ;; k" := (bind r (fun x => k))
  (at level 61, r at next level, right associativity).

(** [v[key]] on a value. *)
Definition subscript_key (v : json) (key : str) : result json :=
  match v with
  | JDict d =>
    match dict_get key d with
    | Some w => Ok w
    | None => Raise (KeyError key)
    end
  | _ => Raise TypeError
  end.

(** [v[0]] on a value: the first item of a list, the first character of a
    non-empty string. *)
Definition subscript_zero (v : json) : result json :=
  match v with
  | JList (x :: _) => Ok x
  | JList [] => Raise IndexError
  | JStr (c :: _) => Ok (JStr [c])
  | JStr [] => Raise IndexError
  | JDict _ => Raise (KeyError (lit "0"))
  | _ => Raise TypeError
  end.

(** [v.get(key, default)]: only a [dict] has [get]. *)
Definition get_default (v : json) (key : str) (default : json) : result json :=
  match v with
  | JDict d =>
    match dict_get key d with
    | Some w => Ok w
    | None => Ok default
    end
  | _ => Raise AttributeError
  end.

(** What the Python runtime supplies: [repr] of a value, the text of an
    exception, and the Unicode table of digits above ASCII. *)
Record Runtime : Type := {
  py_repr : json -> str;
  py_exn_str : exn -> str;
  py_unicode_digit : char -> bool
}.

(** [str(v)], also what an f-string substitutes: a string is itself, any
    other value is its [repr]. *)
Definition py_str (rt : Runtime) (v : json) : str :=
  match v with
  | JStr s => s
  | _ => py_repr rt v
  end.

End Value.

Import Value.

(** ** [flet] widgets: the attributes the code touches *)

Module Flet.

(** The colors the code names, and [STYLED] for an attribute whose value
    comes from [ui/styles.py]. *)
Inductive color : Type :=
| RED_500 | BLUE_400 | BLUE_700 | GREEN_500 | GREEN_700 | GREY_900 | STYLED.

Record Text : Type := {
  text_value : str;
  text_color : color;
  text_visible : bool
}.

Record TextField : Type := {
  field_value : option str;
  field_border_color : color
}.

Record SnackBar : Type := {
  snack_text : str;
  snack_text_color : option color;
  snack_bgcolor : color
}.

End Flet.

Import Flet.

(** ** [utils/cache.py]: the credential vault and the transcript store *)

Module Cache.

(** Modelled from the spec: the Credential Record of [utils/cache.py], which
    is not among the sources.  It holds the credential and a verifier
    derived from the PIN. *)
Record Credential : Type := {
  api_key : str;
  pin_verifier : str
}.

(** Modelled from the spec: a Transcript Entry.  The callers in [main.py]
    unpack it as the tuple (id, model, user_message, ai_response, timestamp,
    tokens); the projections below are the positions 0 to 5 of that tuple. *)
Record Entry : Type := {
  entry_id : Z;
  entry_model : str;
  entry_user_message : str;
  entry_ai_response : str;
  entry_timestamp : str;
  entry_tokens : Z
}.

(** Modelled from the spec: the persisted state of [ChatCache]: at most one
    Credential Record, the transcript in insertion order, and the next
    sequence id. *)
Record ChatCache : Type := {
  auth_data : option Credential;
  history : list Entry;
  next_id : Z
}.

Definition empty : ChatCache :=
  {| auth_data := None; history := []; next_id := 1 |}.

Section Vault.

(** The verifier derivation of the vault (the spec asks for a one-way
    function of the PIN and leaves it open). *)
Variable derive : str -> str.

(** Modelled from the spec: [has_credential]: true iff a Credential Record
    is present. *)
Definition has_auth_data (c : ChatCache) : bool :=
  match auth_data c with
  | Some _ => true
  | None => false
  end.

(** Modelled from the spec: [store_credential]: persists the credential and
    the verifier derived from the PIN, overwriting any prior record; when
    the write cannot be completed ([durable = false]) the prior state is
    left untouched.  The caller in [components.py] reads the outcome as a
    boolean. *)
Definition save_auth_data (durable : bool) (key pin : str) (c : ChatCache)
  : bool * ChatCache :=
  if durable then
    (true, {| auth_data := Some {| api_key := key; pin_verifier := derive pin |};
              history := history c; next_id := next_id c |})
  else (false, c).

(** Modelled from the spec: [verify_pin]: recomputes the verifier from the
    candidate and compares it with the stored one; false, never an error,
    on a wrong PIN or an empty vault. *)
Definition check_pin (candidate : str) (c : ChatCache) : bool :=
  match auth_data c with
  | Some r => str_eqb (derive candidate) (pin_verifier r)
  | None => false
  end.

(** Modelled from the spec: [get_api_key]: the stored credential, absent if
    no record exists. *)
Definition get_api_key (c : ChatCache) : option str :=
  match auth_data c with
  | Some r => Some (api_key r)
  | None => None
  end.

(** Modelled from the spec: [reset]: destroys the Credential Record;
    resetting an empty vault succeeds. *)
Definition reset_auth_data (c : ChatCache) : ChatCache :=
  {| auth_data := None; history := history c; next_id := next_id c |}.

End Vault.

(** Modelled from the spec: [append]: assigns the next sequence id, stamps
    the current time [now], persists the entry after the others.  The
    contract takes a model identifier, a response text and an integer token
    count: other values are refused with [TypeError]; a write that cannot
    be completed ([write] is the storage's answer) is surfaced as the
    storage's error. *)
Definition save_message (write : result unit) (now : str) (model : option str)
    (user_message : str) (ai_response tokens_used : json) (c : ChatCache)
  : result ChatCache :=
  match model, ai_response, tokens_used with
  | Some model, JStr response, JInt tokens =>
    match write with
    | Ok _ =>
      Ok {| auth_data := auth_data c;
            history := history c ++
              [{| entry_id := next_id c; entry_model := model;
                  entry_user_message := user_message;
                  entry_ai_response := response;
                  entry_timestamp := now; entry_tokens := tokens |}];
            next_id := next_id c + 1 |}
    | Raise e => Raise e
    end
  | _, _, _ => Raise TypeError
  end.

(** Modelled from the spec: [read_all]: the entries in insertion order. *)
Definition get_chat_history (c : ChatCache) : list Entry := history c.

(** Modelled from the spec: [clear]: removes all entries; ids are not
    reused. *)
Definition clear_history (c : ChatCache) : ChatCache :=
  {| auth_data := auth_data c; history := []; next_id := next_id c |}.

End Cache.

(** ** [utils/analytics.py]: the aggregator *)

Module Analytics.

Import Cache.

(** Modelled from the spec: the Analytics Snapshot of [utils/analytics.py],
    which is not among the sources; the field names are the keys
    [show_analytics] reads. *)
Record Snapshot : Type := {
  total_messages : Z;
  total_tokens : Z;
  tokens_per_message : Q;
  messages_per_minute : Q
}.

(** What one pass over the entries accumulates. *)
Record Acc : Type := {
  acc_count : Z;
  acc_tokens : Z;
  acc_first : option str;
  acc_last : option str
}.

Definition acc_step (a : Acc) (e : Entry) : Acc :=
  {| acc_count := acc_count a + 1;
     acc_tokens := acc_tokens a + entry_tokens e;
     acc_first := match acc_first a with
                  | Some t => Some t
                  | None => Some (entry_timestamp e)
                  end;
     acc_last := Some (entry_timestamp e) |}.

Definition acc_init : Acc :=
  {| acc_count := 0; acc_tokens := 0; acc_first := None; acc_last := None |}.

Section Aggregate.

(** The reading of a stored timestamp as seconds. *)
Variable seconds_of : str -> Q.

(** Modelled from the spec: messages per minute over the span between the
    first and the last timestamp; 0 with fewer than 2 entries or no elapsed
    time. *)
Definition rate (count : Z) (first last : option str) : Q :=
  match first, last with
  | Some t0, Some t1 =>
    if count <? 2 then 0%Q
    else
      let span := Qred (seconds_of t1 - seconds_of t0) in
      if Qeq_bool span 0 then 0%Q
      else Qred (inject_Z count * 60 / span)
  | _, _ => 0%Q
  end.

(** Modelled from the spec: [aggregate(entries) -> Snapshot]: message count,
    total tokens, tokens per message (0 when the count is 0) and messages
    per minute. *)
Definition aggregate (entries : list Entry) : Snapshot :=
  let a := fold_left acc_step entries acc_init in
  {| total_messages := acc_count a;
     total_tokens := acc_tokens a;
     tokens_per_message :=
       if acc_count a =? 0 then 0%Q
       else Qred (inject_Z (acc_tokens a) / inject_Z (acc_count a));
     messages_per_minute := rate (acc_count a) (acc_first a) (acc_last a) |}.

(** Modelled from the spec: [get_statistics()], as [show_analytics] calls
    it: the aggregate of the transcript the store holds. *)
Definition get_statistics (c : ChatCache) : Snapshot :=
  aggregate (get_chat_history c).

End Aggregate.

End Analytics.

(** ** [ui/components.py]: [AuthScreen] and [PinScreen] *)

Module Components.

Import Cache.

(** *** [AuthScreen] *)

Record AuthScreen : Type := {
  api_key_field : TextField;
  auth_status_text : Text;
  validate_button_disabled : bool
}.

(** [AuthScreen.__init__]. *)
Definition AuthScreen_new : AuthScreen :=
  {| api_key_field := {| field_value := Some []; field_border_color := BLUE_400 |};
     auth_status_text := {| text_value := []; text_color := RED_500; text_visible := false |};
     validate_button_disabled := false |}.

(** [AuthScreen.show_error]. *)
Definition auth_show_error (message : str) (self : AuthScreen) : AuthScreen :=
  {| api_key_field := {| field_value := field_value (api_key_field self);
                         field_border_color := RED_500 |};
     auth_status_text := {| text_value := message; text_color := RED_500;
                            text_visible := true |};
     validate_button_disabled := false |}.

(** The screen once the user typed [typed] into the key field. *)
Definition enter_key (typed : str) (self : AuthScreen) : AuthScreen :=
  {| api_key_field := {| field_value := Some typed;
                         field_border_color := field_border_color (api_key_field self) |};
     auth_status_text := auth_status_text self;
     validate_button_disabled := validate_button_disabled self |}.

Section PinGeneration.

(** The state of Python's [random] module and its [randint(a, b)]. *)
Variable Rng : Type.
Variable randint : Z -> Z -> Rng -> Z * Rng.

(** [[str(random.randint(0, 9)) for _ in range(n)]], drawn left to right. *)
Fixpoint draw_digits (n : nat) (g : Rng) : list str * Rng :=
  match n with
  | O => ([], g)
  | S k =>
    let (d, g1) := randint 0 9 g in
    let (ds, g2) := draw_digits k g1 in
    (str_of_int d :: ds, g2)
  end.

(** [''.join([str(random.randint(0, 9)) for _ in range(4)])]. *)
Definition generate_pin (g : Rng) : str * Rng :=
  let (ds, g') := draw_digits 4 g in (List.concat ds, g').

(** What [validate_api_key] meets outside the screen: the answer of
    [api_client.get_balance()], the random source, and whether the vault's
    write completes. *)
Record AuthEnv : Type := {
  env_balance : result str;
  env_rng : Rng;
  env_durable : bool
}.

(** What [validate_api_key] leaves behind: the screen, the key held by the
    shared API client, the shared cache, the random source, and the PIN of
    the dialog it opened, if it opened one. *)
Record AuthOutcome : Type := {
  out_screen : AuthScreen;
  out_client_key : option str;
  out_cache : ChatCache;
  out_rng : Rng;
  out_pin_dialog : option str
}.

Variable rt : Runtime.
Variable derive : str -> str.

(** [AuthScreen.validate_api_key]. *)
Definition validate_api_key (env : AuthEnv) (self : AuthScreen)
    (client_key : option str) (cache : ChatCache) : AuthOutcome :=
  let api_key := field_value (api_key_field self) in
  match api_key with
  | None | Some [] =>
    {| out_screen := auth_show_error (lit "Введите API ключ") self;
       out_client_key := client_key; out_cache := cache;
       out_rng := env_rng env; out_pin_dialog := None |}
  | Some key =>
    let checking :=
      {| api_key_field := api_key_field self;
         auth_status_text := {| text_value := lit "Проверка ключа...";
                                text_color := BLUE_400; text_visible := true |};
         validate_button_disabled := true |} in
    let original_key := client_key in
    match env_balance env with
    | Raise ex =>
      {| out_screen := auth_show_error (lit "Ошибка: " ++ py_exn_str rt ex) checking;
         out_client_key := Some key; out_cache := cache;
         out_rng := env_rng env; out_pin_dialog := None |}
    | Ok balance =>
      if str_eqb balance (lit "Ошибка") then
        {| out_screen := auth_show_error (lit "Неверный API ключ") checking;
           out_client_key := original_key; out_cache := cache;
           out_rng := env_rng env; out_pin_dialog := None |}
      else
        let (pin, g) := generate_pin (env_rng env) in
        let (success, cache') := save_auth_data derive (env_durable env) key pin cache in
        if success then
          {| out_screen := checking;
             out_client_key := Some key; out_cache := cache';
             out_rng := g; out_pin_dialog := Some pin |}
        else
          {| out_screen := auth_show_error (lit "Ошибка сохранения данных") checking;
             out_client_key := original_key; out_cache := cache';
             out_rng := g; out_pin_dialog := None |}
    end
  end.

End PinGeneration.

(** *** [PinScreen] *)

Record PinScreen : Type := {
  pin_field : TextField;
  pin_status_text : Text
}.

(** [PinScreen.__init__]. *)
Definition PinScreen_new : PinScreen :=
  {| pin_field := {| field_value := Some []; field_border_color := BLUE_400 |};
     pin_status_text := {| text_value := []; text_color := RED_500; text_visible := false |} |}.

(** [PinScreen.show_error]. *)
Definition pin_show_error (message : str) (self : PinScreen) : PinScreen :=
  {| pin_field := {| field_value := field_value (pin_field self);
                     field_border_color := RED_500 |};
     pin_status_text := {| text_value := message; text_color := RED_500;
                           text_visible := true |} |}.

(** The screen once the user typed [typed] into the PIN field. *)
Definition enter_pin (typed : str) (self : PinScreen) : PinScreen :=
  {| pin_field := {| field_value := Some typed;
                     field_border_color := field_border_color (pin_field self) |};
     pin_status_text := pin_status_text self |}.

(** [PinScreen.validate_pin]: the screen afterwards, and whether
    [on_pin_validated] was called. *)
Definition validate_pin (rt : Runtime) (derive : str -> str)
    (self : PinScreen) (cache : ChatCache) : PinScreen * bool :=
  match field_value (pin_field self) with
  | None | Some [] => (pin_show_error (lit "Введите PIN-код") self, false)
  | Some pin =>
    if negb (len pin =? 4) then
      (pin_show_error (lit "PIN-код должен содержать 4 цифры") self, false)
    else if negb (isdigit (py_unicode_digit rt) pin) then
      (pin_show_error (lit "PIN-код должен содержать только цифры") self, false)
    else
      let is_valid := check_pin derive pin cache in
      if is_valid then (self, true)
      else (pin_show_error (lit "Неверный PIN-код") self, false)
  end.

(** [reset_confirmed] inside [PinScreen.confirm_reset_api_key]: the cache
    after the reset; [on_reset_api_key] is called next. *)
Definition reset_confirmed (cache : ChatCache) : ChatCache :=
  reset_auth_data cache.

End Components.

(** ** The [json] module of the standard library, as [save_dialog] uses it *)

Module Json.

(** *** [json.dump(obj, f, ensure_ascii=False, indent=4)] *)

Definition hex_digit (n : N) : char :=
  if (n <? 10)%N then (48 + n)%N else (87 + n)%N.

(** The replacement of one character inside a string literal when
    [ensure_ascii] is false: the quote, the backslash and the control
    characters below 32 are escaped, every other character is written as
    it is. *)
Definition escape_char (c : char) : str :=
  if (c =? 34)%N then [92; 34]%N
  else if (c =? 92)%N then [92; 92]%N
  else if (c =? 10)%N then [92; 110]%N
  else if (c =? 13)%N then [92; 114]%N
  else if (c =? 9)%N then [92; 116]%N
  else if (c =? 8)%N then [92; 98]%N
  else if (c =? 12)%N then [92; 102]%N
  else if (c <? 32)%N then
    [92; 117; 48; 48; hex_digit (c / 16); hex_digit (c mod 16)]%N
  else [c].

Definition encode_basestring (s : str) : str :=
  (34 :: List.flat_map escape_char s ++ [34])%N.

(** A newline and the indentation of nesting level [level], four spaces a
    level. *)
Definition newline_indent (level : nat) : str :=
  10%N :: List.repeat 32%N (4 * level).

Fixpoint join (sep : str) (parts : list str) : str :=
  match parts with
  | [] => []
  | [p] => p
  | p :: ps => p ++ sep ++ join sep ps
  end.

(** The text of a value at nesting level [level]; items are separated by a
    comma, a key from its value by a colon and a space. *)
Fixpoint encode (level : nat) (v : json) : str :=
  match v with
  | JNull => lit "null"
  | JBool true => lit "true"
  | JBool false => lit "false"
  | JInt z => str_of_int z
  | JStr s => encode_basestring s
  | JList [] => lit "[]"
  | JList items =>
    [91%N] ++ newline_indent (S level)
      ++ join (44%N :: newline_indent (S level))
              (List.map (encode (S level)) items)
      ++ newline_indent level ++ [93%N]
  | JDict [] => lit "{}"
  | JDict pairs =>
    [123%N] ++ newline_indent (S level)
      ++ join (44%N :: newline_indent (S level))
              (List.map (fun kv => encode_basestring (fst kv) ++ lit ": "
                                     ++ encode (S level) (snd kv)) pairs)
      ++ newline_indent level ++ [125%N]
  end.

Definition dumps (v : json) : str := encode 0 v.

(** *** [json.load] *)

Definition is_ws (c : char) : bool :=
  (c =? 32)%N || (c =? 9)%N || (c =? 10)%N || (c =? 13)%N.

Fixpoint skip_ws (s : str) : str :=
  match s with
  | c :: r => if is_ws c then skip_ws r else s
  | [] => []
  end.

Definition hex_value (c : char) : option N :=
  if is_ascii_digit c then Some (c - 48)%N
  else if (97 <=? c)%N && (c <=? 102)%N then Some (c - 87)%N
  else if (65 <=? c)%N && (c <=? 70)%N then Some (c - 55)%N
  else None.

(** Four hexadecimal digits. *)
Definition hex4 (a b c d : char) : option N :=
  match hex_value a, hex_value b, hex_value c, hex_value d with
  | Some x, Some y, Some z, Some w => Some (((x * 16 + y) * 16 + z) * 16 + w)%N
  | _, _, _, _ => None
  end.

(** The character an escape letter stands for. *)
Definition unescape (e : char) : option char :=
  if (e =? 34)%N then Some 34%N
  else if (e =? 92)%N then Some 92%N
  else if (e =? 47)%N then Some 47%N
  else if (e =? 98)%N then Some 8%N
  else if (e =? 102)%N then Some 12%N
  else if (e =? 110)%N then Some 10%N
  else if (e =? 114)%N then Some 13%N
  else if (e =? 116)%N then Some 9%N
  else None.

Definition is_high_surrogate (c : N) : bool := (55296 <=? c)%N && (c <=? 56319)%N.
Definition is_low_surrogate (c : N) : bool := (56320 <=? c)%N && (c <=? 57343)%N.

Definition cons_char (c : char) (r : option (str * str)) : option (str * str) :=
  match r with
  | Some (s, rest) => Some (c :: s, rest)
  | None => None
  end.

(** [scanstring], strict: [s] starts after the opening quote; the answer is
    the decoded string and what follows the closing quote. *)
Fixpoint scanstring (s : str) : option (str * str) :=
  match s with
  | [] => None
  | c :: r =>
    if (c =? 34)%N then Some ([], r)
    else if (c =? 92)%N then
      match r with
      | [] => None
      | e :: r1 =>
        if (e =? 117)%N then
          match r1 with
          | h1 :: h2 :: h3 :: h4 :: r2 =>
            match hex4 h1 h2 h3 h4 with
            | None => None
            | Some u =>
              match r2 with
              | b :: l :: k1 :: k2 :: k3 :: k4 :: (_ :: _) as r3 =>
                if is_high_surrogate u && (b =? 92)%N && (l =? 117)%N then
                  match hex4 k1 k2 k3 k4 with
                  | None => None
                  | Some u2 =>
                    if is_low_surrogate u2 then
                      cons_char (65536 + ((u - 55296) * 1024 + (u2 - 56320)))%N
                                (scanstring r3)
                    else cons_char u (scanstring r2)
                  end
                else cons_char u (scanstring r2)
              | _ => cons_char u (scanstring r2)
              end
            end
          | _ => None
          end
        else
          match unescape e with
          | Some ch => cons_char ch (scanstring r1)
          | None => None
          end
      end
    else if (c <? 32)%N then None
    else cons_char c (scanstring r)
  end.

(** The longest run of decimal digits at the start of [s], read as a number
    on top of [v], and what follows it. *)
Fixpoint read_digits (v : N) (s : str) : N * str :=
  match s with
  | c :: r =>
    if is_ascii_digit c then read_digits (v * 10 + (c - 48))%N r else (v, s)
  | [] => (v, [])
  end.

(** Whether a fraction or an exponent follows the integer part: such a
    number is a [float], which the export format does not contain and this
    reader leaves unread. *)
Definition float_follows (s : str) : bool :=
  match s with
  | c :: d :: r =>
    if (c =? 46)%N then is_ascii_digit d
    else if (c =? 101)%N || (c =? 69)%N then
      if is_ascii_digit d then true
      else if (d =? 43)%N || (d =? 45)%N then
        match r with
        | d2 :: _ => is_ascii_digit d2
        | [] => false
        end
      else false
    else false
  | _ => false
  end.

(** The integer part of a number: a zero, or a non-zero digit and the digits
    after it. *)
Definition scan_natural (s : str) : option (N * str) :=
  match s with
  | c :: r =>
    if (c =? 48)%N then Some (0%N, r)
    else if is_ascii_digit c then Some (read_digits 0 s)
    else None
  | [] => None
  end.

Definition scan_number (s : str) : option (json * str) :=
  let (negative, digits) :=
    match s with
    | c :: r => if (c =? 45)%N then (true, r) else (false, s)
    | [] => (false, s)
    end in
  match scan_natural digits with
  | Some (n, rest) =>
    if float_follows rest then None
    else Some (JInt (if negative then - Z.of_N n else Z.of_N n), rest)
  | None => None
  end.

(** [s] starts with the characters of [word]: what follows them. *)
Fixpoint expect (word s : str) : option str :=
  match word, s with
  | [], _ => Some s
  | w :: word', c :: r => if chr_eqb w c then expect word' r else None
  | _ :: _, [] => None
  end.

(** [scan_once] with the loops of [JSONArray] and [JSONObject]; every call
    and every item spends one unit of [fuel]. *)
Fixpoint scan_once (fuel : nat) (s : str) : option (json * str) :=
  match fuel with
  | O => None
  | S f =>
    match s with
    | [] => None
    | c :: r =>
      if (c =? 34)%N then
        match scanstring r with
        | Some (text, rest) => Some (JStr text, rest)
        | None => None
        end
      else if (c =? 123)%N then
        match skip_ws r with
        | [] => None
        | c1 :: r1 =>
          if (c1 =? 125)%N then Some (JDict [], r1)
          else scan_pairs f (c1 :: r1) []
        end
      else if (c =? 91)%N then
        match skip_ws r with
        | [] => None
        | c1 :: r1 =>
          if (c1 =? 93)%N then Some (JList [], r1)
          else scan_items f (c1 :: r1) []
        end
      else if (c =? 110)%N then
        match expect (lit "ull") r with
        | Some rest => Some (JNull, rest)
        | None => None
        end
      else if (c =? 116)%N then
        match expect (lit "rue") r with
        | Some rest => Some (JBool true, rest)
        | None => None
        end
      else if (c =? 102)%N then
        match expect (lit "alse") r with
        | Some rest => Some (JBool false, rest)
        | None => None
        end
      else scan_number s
    end
  end

with scan_items (fuel : nat) (s : str) (seen : list json) : option (json * str) :=
  match fuel with
  | O => None
  | S f =>
    match scan_once f s with
    | None => None
    | Some (v, rest) =>
      match skip_ws rest with
      | [] => None
      | c :: r =>
        if (c =? 93)%N then Some (JList (List.rev (v :: seen)), r)
        else if (c =? 44)%N then scan_items f (skip_ws r) (v :: seen)
        else None
      end
    end
  end

with scan_pairs (fuel : nat) (s : str) (seen : list (str * json)) : option (json * str) :=
  match fuel with
  | O => None
  | S f =>
    match s with
    | [] => None
    | q :: r0 =>
      if (q =? 34)%N then
        match scanstring r0 with
        | None => None
        | Some (key, after_key) =>
          match skip_ws after_key with
          | [] => None
          | colon :: r1 =>
            if (colon =? 58)%N then
              match scan_once f (skip_ws r1) with
              | None => None
              | Some (v, rest) =>
                match skip_ws rest with
                | [] => None
                | c :: r =>
                  if (c =? 125)%N then
                    Some (JDict (dict_of_pairs (List.rev ((key, v) :: seen))), r)
                  else if (c =? 44)%N then
                    scan_pairs f (skip_ws r) ((key, v) :: seen)
                  else None
                end
              end
            else None
          end
        end
      else None
    end
  end.

(** [json.loads(s)]: one value, with white space around it and nothing
    else. *)
Definition loads (s : str) : option json :=
  match scan_once (S (List.length s)) (skip_ws s) with
  | Some (v, rest) =>
    match skip_ws rest with
    | [] => Some v
    | _ :: _ => None
    end
  | None => None
  end.

End Json.

(** ** [datetime]: the wall clock and [strftime] *)

Module Clock.

Record datetime : Type := {
  year : Z; month : Z; day : Z;
  hour : Z; minute : Z; second : Z
}.

(** The civil date of a day number counted from 1970-01-01 (proleptic
    Gregorian calendar). *)
Definition civil_from_days (days : Z) : Z * Z * Z :=
  let z := days + 719468 in
  let era := z / 146097 in
  let doe := z - era * 146097 in
  let yoe := (doe - doe / 1460 + doe / 36524 - doe / 146096) / 365 in
  let doy := doe - (365 * yoe + yoe / 4 - yoe / 100) in
  let mp := (5 * doy + 2) / 153 in
  let d := doy - (153 * mp + 2) / 5 + 1 in
  let m := if mp <? 10 then mp + 3 else mp - 9 in
  let y := yoe + era * 400 in
  (if m <=? 2 then y + 1 else y, m, d).

Definition datetime_of_seconds (s : Z) : datetime :=
  let '(y, m, d) := civil_from_days (s / 86400) in
  let sod := s mod 86400 in
  {| year := y; month := m; day := d;
     hour := sod / 3600; minute := (sod mod 3600) / 60; second := sod mod 60 |}.

(** The system clock: the instant, in seconds since the epoch, and the
    offset of the local time zone from UTC at that instant, in seconds. *)
Record SystemClock : Type := {
  epoch_seconds : Z;
  utc_offset : Z
}.

(** [datetime.now()]: the local date and time, without a time zone. *)
Definition datetime_now (c : SystemClock) : datetime :=
  datetime_of_seconds (epoch_seconds c + utc_offset c).

(** [datetime.utcnow()]: the same instant as UTC date and time.  The source
    does not call it; it is what a UTC time stamp would be taken from. *)
Definition datetime_utcnow (c : SystemClock) : datetime :=
  datetime_of_seconds (epoch_seconds c).

(** A number written in decimal, zero-padded on the left to [width]. *)
Definition zero_pad (width : nat) (z : Z) : str :=
  let digits := str_of_int z in
  List.repeat c_zero (width - List.length digits) ++ digits.

(** [t.strftime("%Y%m%d_%H%M%S")]. *)
Definition strftime_compact (t : datetime) : str :=
  zero_pad 4 (year t) ++ zero_pad 2 (month t) ++ zero_pad 2 (day t)
    ++ lit "_"
    ++ zero_pad 2 (hour t) ++ zero_pad 2 (minute t) ++ zero_pad 2 (second t).

End Clock.

(** ** [main.py]: [ChatApp] *)

Module Main.

Import Cache Components Clock.

(** A control of the chat list: a [MessageBubble] (its text is the cleaned
    message) or the [ProgressRing] shown while a reply is awaited. *)
Inductive Control : Type :=
| MessageBubble (value : str) (is_user : bool)
| ProgressRing.

(** [MessageBubble(message=..., is_user=...)]. *)
Definition MessageBubble_new (message : str) (is_user : bool) : Control :=
  MessageBubble (Bubble.clean_message message) is_user.

Inductive PageControl : Type :=
| PinScreenControl
| AuthScreenControl
| MainColumn.

Inductive Overlay : Type :=
| PinDialog (pin : str) (is_open : bool)
| Snack (bar : SnackBar).

Inductive LogLevel : Type := INFO | DEBUG | ERROR.

(** What the application does to its collaborators, in order: log lines,
    calls of the API client, of the analytics tracker and of the monitor,
    and files written, with their bytes. *)
Inductive Event : Type :=
| Logged (level : LogLevel) (message : str)
| ApiGetBalance
| ApiSendMessage (message : str) (model : option str)
| TrackMessage (model : option str) (message_length : Z)
               (response_time : Q) (tokens_used : json)
| MonitorGetMetrics
| MonitorLogMetrics
| FileWritten (filename : str) (content : list N).

Record ChatApp : Type := {
  cache : ChatCache;
  client_api_key : option str;
  is_authenticated : bool;
  auth_screen : option AuthScreen;
  pin_screen : option PinScreen;
  balance_text : Text;
  exports_dir : str;
  page_controls : list PageControl;
  page_overlay : list Overlay;
  model_dropdown : option str;
  chat_history : list Control;
  message_input : TextField;
  events : list Event
}.

(** [ChatApp.__init__], over the persisted cache [c] and the API key the
    client starts with.  The widgets of the main interface are created later
    by [initialize_main_interface]. *)
Definition ChatApp_new (c : ChatCache) (key : option str) : ChatApp :=
  {| cache := c; client_api_key := key; is_authenticated := false;
     auth_screen := None; pin_screen := None;
     balance_text := {| text_value := lit "Баланс: Загрузка...";
                        text_color := STYLED; text_visible := true |};
     exports_dir := lit "exports";
     page_controls := []; page_overlay := [];
     model_dropdown := None; chat_history := [];
     message_input := {| field_value := Some []; field_border_color := STYLED |};
     events := [] |}.

(** Attribute assignments. *)
Definition set_cache (c : ChatCache) (a : ChatApp) : ChatApp :=
  {| cache := c; client_api_key := client_api_key a;
     is_authenticated := is_authenticated a; auth_screen := auth_screen a;
     pin_screen := pin_screen a; balance_text := balance_text a;
     exports_dir := exports_dir a; page_controls := page_controls a;
     page_overlay := page_overlay a; model_dropdown := model_dropdown a;
     chat_history := chat_history a; message_input := message_input a;
     events := events a |}.

Definition set_client_api_key (k : option str) (a : ChatApp) : ChatApp :=
  {| cache := cache a; client_api_key := k;
     is_authenticated := is_authenticated a; auth_screen := auth_screen a;
     pin_screen := pin_screen a; balance_text := balance_text a;
     exports_dir := exports_dir a; page_controls := page_controls a;
     page_overlay := page_overlay a; model_dropdown := model_dropdown a;
     chat_history := chat_history a; message_input := message_input a;
     events := events a |}.

Definition set_is_authenticated (b : bool) (a : ChatApp) : ChatApp :=
  {| cache := cache a; client_api_key := client_api_key a;
     is_authenticated := b; auth_screen := auth_screen a;
     pin_screen := pin_screen a; balance_text := balance_text a;
     exports_dir := exports_dir a; page_controls := page_controls a;
     page_overlay := page_overlay a; model_dropdown := model_dropdown a;
     chat_history := chat_history a; message_input := message_input a;
     events := events a |}.

Definition set_auth_screen (s : option AuthScreen) (a : ChatApp) : ChatApp :=
  {| cache := cache a; client_api_key := client_api_key a;
     is_authenticated := is_authenticated a; auth_screen := s;
     pin_screen := pin_screen a; balance_text := balance_text a;
     exports_dir := exports_dir a; page_controls := page_controls a;
     page_overlay := page_overlay a; model_dropdown := model_dropdown a;
     chat_history := chat_history a; message_input := message_input a;
     events := events a |}.

Definition set_pin_screen (s : option PinScreen) (a : ChatApp) : ChatApp :=
  {| cache := cache a; client_api_key := client_api_key a;
     is_authenticated := is_authenticated a; auth_screen := auth_screen a;
     pin_screen := s; balance_text := balance_text a;
     exports_dir := exports_dir a; page_controls := page_controls a;
     page_overlay := page_overlay a; model_dropdown := model_dropdown a;
     chat_history := chat_history a; message_input := message_input a;
     events := events a |}.

Definition set_balance_text (t : Text) (a : ChatApp) : ChatApp :=
  {| cache := cache a; client_api_key := client_api_key a;
     is_authenticated := is_authenticated a; auth_screen := auth_screen a;
     pin_screen := pin_screen a; balance_text := t;
     exports_dir := exports_dir a; page_controls := page_controls a;
     page_overlay := page_overlay a; model_dropdown := model_dropdown a;
     chat_history := chat_history a; message_input := message_input a;
     events := events a |}.

Definition set_page_controls (l : list PageControl) (a : ChatApp) : ChatApp :=
  {| cache := cache a; client_api_key := client_api_key a;
     is_authenticated := is_authenticated a; auth_screen := auth_screen a;
     pin_screen := pin_screen a; balance_text := balance_text a;
     exports_dir := exports_dir a; page_controls := l;
     page_overlay := page_overlay a; model_dropdown := model_dropdown a;
     chat_history := chat_history a; message_input := message_input a;
     events := events a |}.

Definition set_page_overlay (l : list Overlay) (a : ChatApp) : ChatApp :=
  {| cache := cache a; client_api_key := client_api_key a;
     is_authenticated := is_authenticated a; auth_screen := auth_screen a;
     pin_screen := pin_screen a; balance_text := balance_text a;
     exports_dir := exports_dir a; page_controls := page_controls a;
     page_overlay := l; model_dropdown := model_dropdown a;
     chat_history := chat_history a; message_input := message_input a;
     events := events a |}.

Definition set_model_dropdown (m : option str) (a : ChatApp) : ChatApp :=
  {| cache := cache a; client_api_key := client_api_key a;
     is_authenticated := is_authenticated a; auth_screen := auth_screen a;
     pin_screen := pin_screen a; balance_text := balance_text a;
     exports_dir := exports_dir a; page_controls := page_controls a;
     page_overlay := page_overlay a; model_dropdown := m;
     chat_history := chat_history a; message_input := message_input a;
     events := events a |}.

Definition set_chat_history (l : list Control) (a : ChatApp) : ChatApp :=
  {| cache := cache a; client_api_key := client_api_key a;
     is_authenticated := is_authenticated a; auth_screen := auth_screen a;
     pin_screen := pin_screen a; balance_text := balance_text a;
     exports_dir := exports_dir a; page_controls := page_controls a;
     page_overlay := page_overlay a; model_dropdown := model_dropdown a;
     chat_history := l; message_input := message_input a;
     events := events a |}.

Definition set_message_input (f : TextField) (a : ChatApp) : ChatApp :=
  {| cache := cache a; client_api_key := client_api_key a;
     is_authenticated := is_authenticated a; auth_screen := auth_screen a;
     pin_screen := pin_screen a; balance_text := balance_text a;
     exports_dir := exports_dir a; page_controls := page_controls a;
     page_overlay := page_overlay a; model_dropdown := model_dropdown a;
     chat_history := chat_history a; message_input := f;
     events := events a |}.

Definition emit (e : Event) (a : ChatApp) : ChatApp :=
  {| cache := cache a; client_api_key := client_api_key a;
     is_authenticated := is_authenticated a; auth_screen := auth_screen a;
     pin_screen := pin_screen a; balance_text := balance_text a;
     exports_dir := exports_dir a; page_controls := page_controls a;
     page_overlay := page_overlay a; model_dropdown := model_dropdown a;
     chat_history := chat_history a; message_input := message_input a;
     events := events a ++ [e] |}.

(** *** Handlers as state transformers that may raise *)

Definition M (A : Type) : Type := ChatApp -> result A * ChatApp.

Definition ret {A} (x : A) : M A := fun a => (Ok x, a).

Definition raise {A} (e : exn) : M A := fun a => (Raise e, a).

Definition and_then {A B} (m : M A) (k : A -> M B) : M B :=
  fun a =>
    match m a with
    | (Ok x, a') => k x a'
    | (Raise e, a') => (Raise e, a')
    end.

Definition update (f : ChatApp -> ChatApp) : M unit :=
  fun a => (Ok tt, f a).

Definition read {A} (f : ChatApp -> A) : M A :=
  fun a => (Ok (f a), a).

Definition lift {A} (r : result A) : M A :=
  fun a => (r, a).

(** [try: body except Exception as e: handler(e)]: what [body] did before
    raising stays done. *)
Definition try_except (body : M unit) (handler : exn -> M unit) : M unit :=
  fun a =>
    match body a with
    | (Ok tt, a') => (Ok tt, a')
    | (Raise e, a') => handler e a'
    end.

(** The state a handler leaves behind. *)
Definition run (m : M unit) (a : ChatApp) : ChatApp := snd (m a).

Declare Scope handler_scope.
Delimit Scope handler_scope with handler.
Notation "x <-- m ;; k" := (and_then m (fun x => k))
  (at level 61, m at next level, right associativity) : handler_scope.
Notation "m ;;; k" := (and_then m (fun _ => k))
  (at level 61, right associativity) : handler_scope.
Local Open Scope handler_scope.

Definition log (level : LogLevel) (message : str) : M unit :=
  update (emit (Logged level message)).

Definition set_text (value : str) (c : color) (t : Text) : Text :=
  {| text_value := value; text_color := c; text_visible := text_visible t |}.

Definition set_border_color (c : color) (f : TextField) : TextField :=
  {| field_value := field_value f; field_border_color := c |}.

Definition set_value (v : option str) (f : TextField) : TextField :=
  {| field_value := v; field_border_color := field_border_color f |}.

Section Handlers.

Variable rt : Runtime.
Variable derive : str -> str.

(** [ChatApp.update_balance]; [reply] is what [api_client.get_balance()]
    answers. *)
Definition update_balance (reply : result str) : M unit :=
  try_except
    (update (emit ApiGetBalance) ;;;
     balance <-- lift reply ;;
     update (fun a => set_balance_text
       (set_text (lit "Баланс: " ++ balance)
                 (if str_eqb balance (lit "Ошибка") then RED_500 else GREEN_500)
                 (balance_text a)) a) ;;;
     log DEBUG (lit "Баланс обновлен: " ++ balance))
    (fun e =>
     update (fun a => set_balance_text
       (set_text (lit "Баланс: Ошибка") RED_500 (balance_text a)) a) ;;;
     log ERROR (lit "Ошибка обновления баланса: " ++ py_exn_str rt e)).

(** The two bubbles [load_chat_history] makes of one entry. *)
Definition bubbles_of_entry (msg : Entry) : list Control :=
  [MessageBubble_new (entry_user_message msg) true;
   MessageBubble_new (entry_ai_response msg) false].

(** [ChatApp.load_chat_history]. *)
Definition load_chat_history : M unit :=
  update (fun a =>
    set_chat_history
      (chat_history a
         ++ List.flat_map bubbles_of_entry (List.rev (get_chat_history (cache a))))
      a).

(** What [initialize_main_interface] meets outside: the ids of
    [api_client.available_models] and the answer to the balance request. *)
Record InterfaceEnv : Type := {
  env_models : list str;
  env_balance_reply : result str
}.

(** [ChatApp.initialize_main_interface]. *)
Definition initialize_main_interface (env : InterfaceEnv) : M unit :=
  update (set_page_controls []) ;;;
  update (set_model_dropdown (List.hd_error (env_models env))) ;;;
  update (set_chat_history []) ;;;
  update (set_message_input {| field_value := Some []; field_border_color := STYLED |}) ;;;
  load_chat_history ;;;
  update (fun a => set_page_controls (page_controls a ++ [MainColumn]) a) ;;;
  update_balance (env_balance_reply env).

(** [on_auth_success] inside [ChatApp.main]. *)
Definition on_auth_success (env : InterfaceEnv) : M unit :=
  log INFO (lit "Аутентификация успешна") ;;;
  update (set_is_authenticated true) ;;;
  initialize_main_interface env.

(** [on_api_key_validated] inside [ChatApp.main]. *)
Definition on_api_key_validated (env : InterfaceEnv) : M unit :=
  log INFO (lit "API ключ успешно проверен") ;;;
  api_key <-- read (fun a => get_api_key (cache a)) ;;
  (if truthy api_key then update (set_client_api_key api_key) else ret tt) ;;;
  on_auth_success env.

(** [on_reset_api_key] inside [ChatApp.main]. *)
Definition on_reset_api_key : M unit :=
  log INFO (lit "API ключ сброшен") ;;;
  update (set_is_authenticated false) ;;;
  update (set_page_controls []) ;;;
  update (set_auth_screen (Some AuthScreen_new)) ;;;
  update (fun a => set_page_controls (page_controls a ++ [AuthScreenControl]) a).

(** [ChatApp.main]: which screen the launch shows. *)
Definition main : M unit :=
  has <-- read (fun a => has_auth_data (cache a)) ;;
  (if has then
     log INFO (lit "Найдены данные аутентификации, показываем экран ввода PIN") ;;;
     update (set_pin_screen (Some PinScreen_new)) ;;;
     update (fun a => set_page_controls (page_controls a ++ [PinScreenControl]) a)
   else
     log INFO (lit "Данные аутентификации не найдены, показываем экран ввода API ключа") ;;;
     update (set_auth_screen (Some AuthScreen_new)) ;;;
     update (fun a => set_page_controls (page_controls a ++ [AuthScreenControl]) a)) ;;;
  update (emit MonitorGetMetrics) ;;;
  log INFO (lit "Приложение запущено").

(** The application right after launch over the persisted cache [c]. *)
Definition launch (c : ChatCache) (key : option str) : ChatApp :=
  run main (ChatApp_new c key).

(** *** The session gate the screens add up to *)

Inductive SessionState : Type :=
| NoCredential
| PendingValidation
| PinIssued (pin : str)
| Locked
| Authenticated.

Fixpoint open_pin_dialog (l : list Overlay) : option str :=
  match l with
  | [] => None
  | PinDialog pin true :: _ => Some pin
  | _ :: l' => open_pin_dialog l'
  end.

(** The state of the gate read off the application: authenticated once the
    flag is set; otherwise locked when the page shows the PIN screen, and,
    when it shows the key screen, PIN issued while the PIN dialog is open and
    no credential before.  [PendingValidation] lasts only inside
    [validate_api_key]. *)
Definition session_state (a : ChatApp) : option SessionState :=
  if is_authenticated a then Some Authenticated
  else
    match page_controls a with
    | [PinScreenControl] => Some Locked
    | [AuthScreenControl] =>
      match open_pin_dialog (page_overlay a) with
      | Some pin => Some (PinIssued pin)
      | None => Some NoCredential
      end
    | _ => None
    end.

(** The user types [typed] into the PIN field and presses the login button:
    [PinScreen.validate_pin] runs and, on success, [on_auth_success]. *)
Definition submit_pin (env : InterfaceEnv) (typed : str) : M unit :=
  fun a =>
    match pin_screen a with
    | None => (Ok tt, a)
    | Some screen =>
      let (screen', validated) :=
        validate_pin rt derive (enter_pin typed screen) (cache a) in
      let a' := set_pin_screen (Some screen') a in
      if validated then on_auth_success env a' else (Ok tt, a')
    end.

(** The user confirms the reset dialog of the PIN screen. *)
Definition confirm_reset : M unit :=
  update (fun a => set_cache (reset_confirmed (cache a)) a) ;;;
  on_reset_api_key.

(** The user types [typed] into the key field and presses the check button:
    [AuthScreen.validate_api_key] runs over the shared client and cache and,
    on success, opens the PIN dialog. *)
Definition submit_key {Rng : Type} (randint : Z -> Z -> Rng -> Z * Rng)
    (env : AuthEnv Rng) (typed : str) : M unit :=
  fun a =>
    match auth_screen a with
    | None => (Ok tt, a)
    | Some screen =>
      let out := validate_api_key randint rt derive env (enter_key typed screen)
                                  (client_api_key a) (cache a) in
      let a1 := set_auth_screen (Some (out_screen out)) a in
      let a2 := set_client_api_key (out_client_key out) a1 in
      let a3 := set_cache (out_cache out) a2 in
      match out_pin_dialog out with
      | Some pin =>
        (Ok tt, set_page_overlay (page_overlay a3 ++ [PinDialog pin true]) a3)
      | None => (Ok tt, a3)
      end
    end.

Fixpoint close_pin_dialogs (l : list Overlay) : list Overlay :=
  match l with
  | [] => []
  | PinDialog pin _ :: l' => PinDialog pin false :: close_pin_dialogs l'
  | o :: l' => o :: close_pin_dialogs l'
  end.

(** The user dismisses the PIN dialog: [close_dialog] inside
    [show_pin_dialog]. *)
Definition acknowledge_pin (env : InterfaceEnv) : M unit :=
  update (fun a => set_page_overlay (close_pin_dialogs (page_overlay a)) a) ;;;
  on_api_key_validated env.

(** *** The chat turn *)

(** [ChatApp.show_error_snack]. *)
Definition show_error_snack (message : str) : M unit :=
  update (fun a => set_page_overlay
    (page_overlay a ++ [Snack {| snack_text := message;
                                 snack_text_color := Some RED_500;
                                 snack_bgcolor := GREY_900 |}]) a).

(** What [send_message] meets outside: the answer of
    [api_client.send_message], the two readings of [time.time()], the time
    stamp and the answer of the storage to the store's write, and the
    answer to the balance request that follows. *)
Record SendEnv : Type := {
  api_response : result dict;
  time_start : Q;
  time_end : Q;
  store_now : str;
  store_write : result unit;
  balance_reply : result str
}.

(** The reply text and the token count [send_message] takes from the
    response, and the error it logs on the way. *)
Definition read_response (response : dict) : M (json * json) :=
  if dict_contains (lit "error") response then
    err <-- lift (subscript_key (JDict response) (lit "error")) ;;
    log ERROR (lit "Ошибка API: " ++ py_str rt err) ;;;
    ret (JStr (lit "Ошибка: " ++ py_str rt err), JInt 0)
  else
    choices <-- lift (subscript_key (JDict response) (lit "choices")) ;;
    choice <-- lift (subscript_zero choices) ;;
    message <-- lift (subscript_key choice (lit "message")) ;;
    content <-- lift (subscript_key message (lit "content")) ;;
    usage <-- lift (get_default (JDict response) (lit "usage") (JDict [])) ;;
    total <-- lift (get_default usage (lit "total_tokens") (JInt 0)) ;;
    ret (content, total).

(** [MessageBubble(message=v, is_user=...)] for a value [v]: [re.sub]
    raises [TypeError] on anything but a string. *)
Definition bubble_of_value (v : json) (is_user : bool) : M Control :=
  match v with
  | JStr s => ret (MessageBubble_new s is_user)
  | _ => raise TypeError
  end.

(** [ChatApp.send_message].  The progress ring removed after the reply is
    the control appended last. *)
Definition send_message (env : SendEnv) (message : option str) : M unit :=
  match message with
  | None | Some [] => ret tt
  | Some user_message =>
    try_except
      (update (fun a => set_message_input
                 (set_border_color BLUE_400 (message_input a)) a) ;;;
       update (fun a => set_message_input
                 (set_value (Some []) (message_input a)) a) ;;;
       update (fun a => set_chat_history
                 (chat_history a ++ [MessageBubble_new user_message true]) a) ;;;
       update (fun a => set_chat_history (chat_history a ++ [ProgressRing]) a) ;;;
       model <-- read model_dropdown ;;
       update (emit (ApiSendMessage user_message model)) ;;;
       response <-- lift (api_response env) ;;
       update (fun a => set_chat_history (List.removelast (chat_history a)) a) ;;;
       reply <-- read_response response ;;
       let (response_text, tokens_used) := (reply : json * json) in
       model <-- read model_dropdown ;;
       c <-- read cache ;;
       c' <-- lift (save_message (store_write env) (store_now env) model
                                 user_message response_text tokens_used c) ;;
       update (set_cache c') ;;;
       bubble <-- bubble_of_value response_text false ;;
       update (fun a => set_chat_history (chat_history a ++ [bubble]) a) ;;;
       model <-- read model_dropdown ;;
       update (emit (TrackMessage model (len user_message)
                                  (time_end env - time_start env) tokens_used)) ;;;
       update_balance (balance_reply env) ;;;
       update (emit MonitorLogMetrics))
      (fun e =>
       log ERROR (lit "Ошибка отправки сообщения: " ++ py_exn_str rt e) ;;;
       update (fun a => set_message_input
                 (set_border_color RED_500 (message_input a)) a) ;;;
       show_error_snack (lit "Ошибка отправки сообщения: " ++ py_exn_str rt e))
  end.

(** *** The export *)

(** One record of the export: the fields of an entry under their keys, the
    time stamp passed through [str]. *)
Definition record_of_entry (msg : Entry) : json :=
  JDict [(lit "timestamp", JStr (py_str rt (JStr (entry_timestamp msg))));
         (lit "model", JStr (entry_model msg));
         (lit "user_message", JStr (entry_user_message msg));
         (lit "ai_response", JStr (entry_ai_response msg));
         (lit "tokens", JInt (entry_tokens msg))].

Definition dialog_data (history : list Entry) : json :=
  JList (List.map record_of_entry history).

(** The name of the export file: the directory, [chat_history_], the local
    date and time in compact form, [.json]. *)
Definition export_filename (dir : str) (clock : SystemClock) : str :=
  dir ++ lit "/chat_history_" ++ strftime_compact (datetime_now clock)
      ++ lit ".json".

(** What [save_dialog] meets outside: the clock, and the answer of the disk
    to opening and writing the file. *)
Record ExportEnv : Type := {
  export_clock : SystemClock;
  export_disk : result unit
}.

(** [open(filename, 'w', encoding='utf-8')] and the [json.dump] into it:
    the text of the document reaches the file, encoded as UTF-8, when the
    disk takes it and every character can be encoded. *)
Definition write_json (env : ExportEnv) (filename : str) (data : json) : M unit :=
  let text := Json.dumps data in
  match export_disk env with
  | Raise e => raise e
  | Ok _ =>
    if negb (List.forallb utf8_encodable text) then raise UnicodeEncodeError
    else update (emit (FileWritten filename (utf8_encode text)))
  end.

(** [ChatApp.save_dialog]. *)
Definition save_dialog (env : ExportEnv) : M unit :=
  try_except
    (history <-- read (fun a => get_chat_history (cache a)) ;;
     dir <-- read exports_dir ;;
     let filename := export_filename dir (export_clock env) in
     write_json env filename (dialog_data history) ;;;
     update (fun a => set_page_overlay
       (page_overlay a ++ [Snack {| snack_text := lit "История сохранена в " ++ filename;
                                    snack_text_color := None;
                                    snack_bgcolor := GREEN_700 |}]) a) ;;;
     log INFO (lit "История диалога сохранена в " ++ filename))
    (fun e =>
     log ERROR (lit "Ошибка сохранения: " ++ py_exn_str rt e) ;;;
     show_error_snack (lit "Ошибка сохранения: " ++ py_exn_str rt e)).

(** [ChatApp.show_analytics] reads the statistics; the dialog shows the four
    fields. *)
Definition show_analytics (seconds_of : str -> Q) (a : ChatApp)
  : Analytics.Snapshot :=
  Analytics.get_statistics seconds_of (cache a).

End Handlers.

Close Scope handler_scope.

End Main.

(** ** What the claims speak of *)

Module Spec.

Import Cache.

(** *** Tags of [clean_message] *)

(** A tag: a less-than sign, one or more characters none of which is a
    greater-than sign, a greater-than sign. *)
Definition is_tag (t : str) : Prop :=
  exists body, body <> [] /\ ~ In c_gt body /\ t = c_lt :: body ++ [c_gt].

Definition contains_tag (s : str) : Prop :=
  exists before t after, is_tag t /\ s = before ++ t ++ after.

(** [r] is [s] with some of its tags taken out and every other character
    kept in place. *)
Inductive TagsRemoved : str -> str -> Prop :=
| removed_nil : TagsRemoved [] []
| removed_keep (c : char) (s r : str) :
    TagsRemoved s r -> TagsRemoved (c :: s) (c :: r)
| removed_drop (t s r : str) :
    is_tag t -> TagsRemoved s r -> TagsRemoved (t ++ s) r.

(** No suffix of [s] starts with a match of the pattern. *)
Fixpoint tag_free (s : str) : bool :=
  match s with
  | [] => true
  | _ :: r =>
    match Bubble.match_tag s with
    | Some _ => false
    | None => tag_free r
    end
  end.

(** *** PINs *)

(** One of the ten ASCII digits. *)
Definition is_digit (c : char) : Prop := (c_zero <= c <= c_nine)%N.

(** Exactly four characters, each one of the ten ASCII digits. *)
Definition four_digits (pin : str) : Prop :=
  List.length pin = 4%nat /\ Forall is_digit pin.

(** *** The life of the vault *)

(** The operations that change the Credential Record: a
    [store_credential], whose write completes or not, and a [reset]. *)
Inductive VaultOp : Type :=
| StoreCredential (durable : bool) (key pin : str)
| ResetVault.

Definition apply_op (derive : str -> str) (c : ChatCache) (op : VaultOp) : ChatCache :=
  match op with
  | StoreCredential durable key pin => snd (save_auth_data derive durable key pin c)
  | ResetVault => reset_auth_data c
  end.

(** The vault after the operations [ops], oldest first, on a fresh
    installation. *)
Definition vault_after (derive : str -> str) (ops : list VaultOp) : ChatCache :=
  fold_left (apply_op derive) ops Cache.empty.

(** Reading the operations newest first: the PIN of the most recent
    successful [store_credential], unless a reset came after it. *)
Fixpoint newest_pin (newest_first : list VaultOp) : option str :=
  match newest_first with
  | [] => None
  | StoreCredential true _ pin :: _ => Some pin
  | StoreCredential false _ _ :: older => newest_pin older
  | ResetVault :: _ => None
  end.

Definition last_stored_pin (ops : list VaultOp) : option str :=
  newest_pin (List.rev ops).

(** *** The gate *)

(** The application after the PINs [pins] were submitted one after the
    other. *)
Definition submit_all (rt : Runtime) (derive : str -> str)
    (env : Main.InterfaceEnv) (pins : list str) (a : Main.ChatApp) : Main.ChatApp :=
  fold_left (fun a p => Main.run (Main.submit_pin rt derive env p) a) pins a.

(** A runtime to evaluate examples with: values and exceptions print as
    the empty text, and no digit lies above ASCII. *)
Definition plain_runtime : Runtime :=
  {| py_repr := fun _ => []; py_exn_str := fun _ => [];
     py_unicode_digit := fun _ => false |}.

(** A random source to evaluate examples with: a linear congruential
    generator, [randint a b] taking the state modulo the size of the
    range. *)
Definition lcg_randint (a b : Z) (g : Z) : Z * Z :=
  (a + g mod (b - a + 1), (g * 1103515245 + 12345) mod 2147483648).

(** *** The transcript as the aggregator sees it *)

Definition sum_tokens (entries : list Entry) : Z :=
  fold_right (fun e total => entry_tokens e + total) 0 entries.

Definition first_timestamp (entries : list Entry) : option str :=
  match entries with
  | e :: _ => Some (entry_timestamp e)
  | [] => None
  end.

Definition last_timestamp (entries : list Entry) : option str :=
  first_timestamp (List.rev entries).

(** *** The export document *)

(** Every dictionary inside [v] has distinct keys, as a Python [dict]
    has. *)
Fixpoint distinct_keys (v : json) : Prop :=
  match v with
  | JList items =>
    (fix all (l : list json) : Prop :=
       match l with
       | [] => True
       | x :: xs => distinct_keys x /\ all xs
       end) items
  | JDict pairs =>
    NoDup (List.map fst pairs) /\
    (fix all (l : list (str * json)) : Prop :=
       match l with
       | [] => True
       | kv :: xs => distinct_keys (snd kv) /\ all xs
       end) pairs
  | _ => True
  end.

(** The fuel [scan_once] spends on the text of [v]. *)
Fixpoint cost (v : json) : nat :=
  match v with
  | JList items =>
    S ((fix sum (l : list json) : nat :=
          match l with
          | [] => O
          | x :: xs => (S (cost x) + sum xs)%nat
          end) items)
  | JDict pairs =>
    S ((fix sum (l : list (str * json)) : nat :=
          match l with
          | [] => O
          | kv :: xs => (S (cost (snd kv)) + sum xs)%nat
          end) pairs)
  | _ => 1%nat
  end.

(** The five fields of an entry that the export writes. *)
Definition entry_fields (e : Entry) : str * str * str * str * Z :=
  (entry_timestamp e, entry_model e, entry_user_message e,
   entry_ai_response e, entry_tokens e).

(** The five fields read from a record of a parsed export. *)
Definition read_record (v : json) : option (str * str * str * str * Z) :=
  match v with
  | JDict d =>
    match dict_get (lit "timestamp") d, dict_get (lit "model") d,
          dict_get (lit "user_message") d, dict_get (lit "ai_response") d,
          dict_get (lit "tokens") d with
    | Some (JStr t), Some (JStr m), Some (JStr u), Some (JStr r), Some (JInt k) =>
      Some (t, m, u, r, k)
    | _, _, _, _, _ => None
    end
  | _ => None
  end.

(** The events a handler added to those of [before]. *)
Definition new_events (before after : Main.ChatApp) : list Main.Event :=
  List.skipn (List.length (Main.events before)) (Main.events after).

(** The PIN screen after the PIN [p] was refused with the message
    [message]. *)
Definition refused (p message : str) : Components.PinScreen :=
  {| Components.pin_field :=
       {| field_value := Some p; field_border_color := RED_500 |};
     Components.pin_status_text :=
       {| text_value := message; text_color := RED_500; text_visible := true |} |}.

(** *** The export *)

(** The name the export file would have with a UTC time stamp. *)
Definition utc_filename (dir : str) (clock : Clock.SystemClock) : str :=
  dir ++ lit "/chat_history_"
      ++ Clock.strftime_compact (Clock.datetime_utcnow clock)
      ++ lit ".json".

(** A compact time stamp: eight digits, an underscore, six digits. *)
Definition compact_stamp (s : str) : Prop :=
  exists date time,
    s = date ++ lit "_" ++ time /\
    List.length date = 8%nat /\ List.length time = 6%nat /\
    Forall is_digit date /\ Forall is_digit time.

(** What may follow a value inside a document: nothing, a comma or a
    newline. *)
Definition ends_value (rest : str) : Prop :=
  match rest with
  | [] => True
  | c :: _ => c = 44%N \/ c = 10%N
  end.

(** What the text of a value starts with: no white space and no closing
    bracket. *)
Definition starts_value (s : str) : Prop :=
  exists c tl, s = c :: tl /\ Json.is_ws c = false
               /\ (c =? 93)%N = false /\ (c =? 125)%N = false.

(** The separator between the items at [level]. *)
Definition separator (level : nat) : str := 44%N :: Json.newline_indent level.

(** The text of one key and its value. *)
Definition encode_pair (level : nat) (kv : str * json) : str :=
  Json.encode_basestring (fst kv) ++ lit ": " ++ Json.encode level (snd kv).

Fixpoint items_cost (l : list json) : nat :=
  match l with
  | [] => O
  | x :: xs => (S (cost x) + items_cost xs)%nat
  end.

Fixpoint pairs_cost (l : list (str * json)) : nat :=
  match l with
  | [] => O
  | kv :: xs => (S (cost (snd kv)) + pairs_cost xs)%nat
  end.

Fixpoint all_distinct (l : list json) : Prop :=
  match l with
  | [] => True
  | x :: xs => distinct_keys x /\ all_distinct xs
  end.

Fixpoint all_distinct_values (l : list (str * json)) : Prop :=
  match l with
  | [] => True
  | kv :: xs => distinct_keys (snd kv) /\ all_distinct_values xs
  end.

(** [v] is read back from its text at any nesting level, given fuel for
    it, whenever what follows may follow a value. *)
Definition reads_back (v : json) : Prop :=
  distinct_keys v ->
  forall level f rest, (cost v <= f)%nat -> ends_value rest ->
    Json.scan_once f (Json.encode level v ++ rest) = Some (v, rest).

(** Decoding the UTF-8 bytes of the code point [c], whatever follows them,
    gives [c] back: the check on one code point. *)
Definition utf8_char_ok (c : char) : bool :=
  match utf8_encode_char c with
  | [b0] => (b0 <? 128)%N && (b0 =? c)%N
  | [b0; b1] =>
    negb (b0 <? 128)%N && (b0 <? 224)%N
    && (N.lor (N.shiftl (N.land b0 31) 6) (N.land b1 63) =? c)%N
  | [b0; b1; b2] =>
    negb (b0 <? 128)%N && negb (b0 <? 224)%N && (b0 <? 240)%N
    && (N.lor (N.shiftl (N.land b0 15) 12)
              (N.lor (N.shiftl (N.land b1 63) 6) (N.land b2 63)) =? c)%N
  | [b0; b1; b2; b3] =>
    negb (b0 <? 128)%N && negb (b0 <? 224)%N && negb (b0 <? 240)%N
    && (N.lor (N.shiftl (N.land b0 7) 18)
              (N.lor (N.shiftl (N.land b1 63) 12)
                     (N.lor (N.shiftl (N.land b2 63) 6) (N.land b3 63))) =? c)%N
  | _ => false
  end.

(** The bytes of a sequence: the continuation byte keeps its six bits, and
    the lead bytes of two, three and four bytes keep theirs and fall in
    their ranges. *)
Definition cont_ok (y : N) : bool :=
  (N.land (N.lor 128 y) 63 =? y)%N.
Definition lead2_ok (x : N) : bool :=
  negb (N.lor 192 x <? 128)%N && (N.lor 192 x <? 224)%N
  && (N.land (N.lor 192 x) 31 =? x)%N.
Definition lead3_ok (x : N) : bool :=
  negb (N.lor 224 x <? 128)%N && negb (N.lor 224 x <? 224)%N
  && (N.lor 224 x <? 240)%N && (N.land (N.lor 224 x) 15 =? x)%N.
Definition lead4_ok (x : N) : bool :=
  negb (N.lor 240 x <? 128)%N && negb (N.lor 240 x <? 224)%N
  && negb (N.lor 240 x <? 240)%N && (N.land (N.lor 240 x) 7 =? x)%N.

(** [P] holds of the [2 ^ k] numbers from [c] on. *)
Fixpoint all_pow (k : nat) (c : N) (P : N -> bool) : bool :=
  match k with
  | O => P c
  | S k' => if all_pow k' c P then all_pow k' (c + 2 ^ N.of_nat k')%N P else false
  end.

End Spec.

(** ** Data to evaluate the model on *)

Module Samples.

Import Cache Components Clock Main Spec.

(** The environment of a first run: the balance request answers, the
    generator is in state 42, the vault takes the write. *)
Definition first_run_env : AuthEnv Z :=
  {| env_balance := Ok (lit "12.50"); env_rng := 42; env_durable := true |}.

Definition key_entered : AuthScreen := enter_key (lit "sk-test") AuthScreen_new.

(** A vault that keeps the PIN as it is, and a life with a store, a reset, a
    failed store and a last successful store. *)
Definition keep_pin (pin : str) : str := pin.

Definition sample_ops : list VaultOp :=
  [StoreCredential true (lit "sk-old") (lit "1234");
   ResetVault;
   StoreCredential false (lit "sk-lost") (lit "5678");
   StoreCredential true (lit "sk-test") (lit "4821")].

(** A relaunch over a vault that holds the PIN 4821. *)
Definition stored_cache : ChatCache :=
  vault_after keep_pin [StoreCredential true (lit "sk-test") (lit "4821")].

Definition relaunched : ChatApp := launch stored_cache None.

Definition quiet_env : InterfaceEnv :=
  {| env_models := [lit "model-a"]; env_balance_reply := Ok (lit "1.00") |}.

Definition wrong_pins : list str := [lit "0000"; lit "12"; lit "abcd"; lit "0000"].

(** An authenticated application with the model model-a selected and an
    empty transcript. *)
Definition chat_app : ChatApp :=
  run (submit_pin plain_runtime keep_pin quiet_env (lit "4821")) relaunched.

(** A turn in which the API client answers the error text timeout. *)
Definition failing_env : SendEnv :=
  {| api_response := Ok [(lit "error", JStr (lit "timeout"))];
     time_start := 100; time_end := 102;
     store_now := lit "2023-11-14 22:13:20";
     store_write := Ok tt;
     balance_reply := Ok (lit "1.00") |}.

(** The application after that turn. *)
Definition app_with_turn : ChatApp :=
  run (send_message plain_runtime failing_env (Some (lit "hi"))) chat_app.

(** An export on a machine three hours east of UTC, on 14 November 2023 at
    22:13:20 UTC. *)
Definition moscow_evening : ExportEnv :=
  {| export_clock := {| epoch_seconds := 1700000000; utc_offset := 10800 |};
     export_disk := Ok tt |}.

(** Time stamps read as a number of seconds written in decimal. *)
Definition seconds_of_decimal (t : str) : Q :=
  inject_Z (Z.of_N (fst (Json.read_digits 0 t))).

Definition entry_at (t : str) (tokens : Z) : Entry :=
  {| entry_id := 0; entry_model := lit "model-a"; entry_user_message := lit "hi";
     entry_ai_response := lit "ok"; entry_timestamp := t; entry_tokens := tokens |}.

Definition three_entries : list Entry :=
  [entry_at (lit "1000") 10; entry_at (lit "1030") 0; entry_at (lit "1090") 25].

End Samples.

(* ===================================================================== *)
(** * Part II. The claims                                                 *)
(* ===================================================================== *)

Unset Implicit Arguments.

(** ** The embedding of strings *)

Example lit_ascii : lit "sk-1" = [115; 107; 45; 49]%N.
Proof. reflexivity. Qed.

Example lit_cyrillic : lit "Ошибка" = [1054; 1096; 1080; 1073; 1082; 1072]%N.
Proof. reflexivity. Qed.

Example str_of_int_ex :
  str_of_int 35 = lit "35" /\ str_of_int (-7) = lit "-7" /\ str_of_int 0 = lit "0".
Proof. repeat split. Qed.

Lemma chr_eqb_eq (a b : char) : chr_eqb a b = true <-> a = b.
Proof. apply N.eqb_eq. Qed.

Lemma chr_eqb_neq (a b : char) : chr_eqb a b = false <-> a <> b.
Proof. apply N.eqb_neq. Qed.

Lemma str_eqb_eq (a b : str) : str_eqb a b = true <-> a = b.
Proof.
  revert b; induction a as [|x a IH]; intros [|y b]; simpl;
    try (split; [discriminate | discriminate]); try tauto.
  rewrite andb_true_iff, chr_eqb_eq, IH.
  split; [intros [-> ->]; reflexivity | intros E; inversion E; auto].
Qed.

Lemma str_eqb_refl (a : str) : str_eqb a a = true.
Proof. apply str_eqb_eq; reflexivity. Qed.

(** ** [clean_message] *)

Module CleanMessage.

Import Bubble Spec Samples.

Example clean_ex1 : clean_message (lit "a<prompt>b</x>c") = lit "abc".
Proof. reflexivity. Qed.

Example clean_ex2 : clean_message (lit "<><a><<b>c>") = lit "<>c>".
Proof. reflexivity. Qed.

(** The run [span_not_gt] takes splits the string, holds no greater-than
    sign, and stops at one or at the end. *)
Lemma span_not_gt_spec (s body rest : str) :
  span_not_gt s = (body, rest) ->
  s = body ++ rest /\ ~ In c_gt body /\
  (rest = [] \/ exists after, rest = c_gt :: after).
Proof.
  revert body rest; induction s as [|c r IH]; simpl; intros body rest E.
  - inversion E; subst; simpl; auto.
  - destruct (chr_eqb c c_gt) eqn:Ec.
    + inversion E; subst; simpl. apply chr_eqb_eq in Ec; subst.
      repeat split; eauto.
    + destruct (span_not_gt r) as [b0 r0] eqn:Er. inversion E; subst.
      destruct (IH _ _ eq_refl) as (-> & Hno & Hrest).
      apply chr_eqb_neq in Ec.
      repeat split; auto. simpl; intros [H|H]; [congruence | auto].
Qed.

Lemma span_not_gt_app (body after : str) :
  ~ In c_gt body -> span_not_gt (body ++ c_gt :: after) = (body, c_gt :: after).
Proof.
  induction body as [|c b IH]; simpl; intros Hno.
  - reflexivity.
  - destruct (chr_eqb c c_gt) eqn:Ec.
    + apply chr_eqb_eq in Ec; subst; tauto.
    + rewrite IH by tauto. reflexivity.
Qed.

Lemma span_not_gt_no_gt (s : str) :
  ~ In c_gt s -> span_not_gt s = (s, []).
Proof.
  induction s as [|c r IH]; simpl; intros Hno; [reflexivity|].
  destruct (chr_eqb c c_gt) eqn:Ec.
  - apply chr_eqb_eq in Ec; subst; tauto.
  - rewrite IH by tauto. reflexivity.
Qed.

(** A match at the start of [s] is exactly a tag at the start of [s]. *)
Lemma match_tag_Some (s after : str) :
  match_tag s = Some after <->
  exists body, body <> [] /\ ~ In c_gt body /\ s = c_lt :: body ++ c_gt :: after.
Proof.
  split.
  - destruct s as [|c r]; simpl; [discriminate|].
    destruct (chr_eqb c c_lt) eqn:Ec; [|discriminate].
    apply chr_eqb_eq in Ec; subst c.
    destruct (span_not_gt r) as [body rest] eqn:Er.
    destruct (span_not_gt_spec _ _ _ Er) as (-> & Hno & Hrest).
    destruct body as [|b body]; [discriminate|].
    destruct rest as [|g rest]; [discriminate|].
    intros E; inversion E; subst.
    destruct Hrest as [H|[a H]]; [discriminate|]. inversion H; subst.
    exists (b :: body). repeat split; auto. discriminate.
  - intros (body & Hne & Hno & ->). simpl.
    rewrite span_not_gt_app by assumption.
    destruct body; [congruence | reflexivity].
Qed.

Lemma match_tag_tag (t after : str) :
  is_tag t -> match_tag (t ++ after) = Some after.
Proof.
  intros (body & Hne & Hno & ->). apply match_tag_Some.
  exists body. repeat split; auto.
  simpl. rewrite <- app_assoc. reflexivity.
Qed.

(** The two equations of the scan. *)
Lemma sub_tags_match (c : char) (r after : str) :
  match_tag (c :: r) = Some after -> sub_tags (c :: r) = sub_tags after.
Proof.
  intros E. simp sub_tags. generalize (inspect (match_tag (c :: r))).
  intros [[a|] Ha]; simp sub_tags; congruence.
Qed.

Lemma sub_tags_keep (c : char) (r : str) :
  match_tag (c :: r) = None -> sub_tags (c :: r) = c :: sub_tags r.
Proof.
  intros E. simp sub_tags. generalize (inspect (match_tag (c :: r))).
  intros [[a|] Ha]; simp sub_tags; congruence.
Qed.

#[local] Arguments match_tag : simpl never.

(** Induction along the scan. *)
Lemma sub_tags_scan_ind (P : str -> str -> Prop) :
  P [] [] ->
  (forall c r after, match_tag (c :: r) = Some after ->
     P after (sub_tags after) -> P (c :: r) (sub_tags after)) ->
  (forall c r, match_tag (c :: r) = None ->
     P r (sub_tags r) -> P (c :: r) (c :: sub_tags r)) ->
  forall s, P s (sub_tags s).
Proof.
  intros Hnil Hdrop Hkeep s.
  remember (length s) as n eqn:Hn. revert s Hn.
  induction n as [n IH] using lt_wf_ind. intros [|c r] Hn.
  - simp sub_tags.
  - destruct (match_tag (c :: r)) as [after|] eqn:E.
    + rewrite (sub_tags_match _ _ _ E). apply Hdrop; [assumption|].
      apply (IH (length after)); [|reflexivity].
      subst n. apply match_tag_shorter with (1 := E).
    + rewrite (sub_tags_keep _ _ E). apply Hkeep; [assumption|].
      apply (IH (length r)); [subst n; simpl; lia | reflexivity].
Qed.

Lemma sub_tags_removes (s : str) : TagsRemoved s (sub_tags s).
Proof.
  apply sub_tags_scan_ind with (P := TagsRemoved).
  - constructor.
  - intros c r after E IH.
    apply match_tag_Some in E. destruct E as (body & Hne & Hno & E).
    rewrite E.
    change (c_lt :: body ++ c_gt :: after)
      with ((c_lt :: body) ++ [c_gt] ++ after).
    rewrite app_assoc. apply removed_drop; [|assumption].
    exists body. auto.
  - intros c r _ IH. constructor; assumption.
Qed.

Lemma TagsRemoved_In (s r : str) (x : char) :
  TagsRemoved s r -> In x r -> In x s.
Proof.
  induction 1; simpl; intros Hin; auto.
  - destruct Hin; auto.
  - apply in_or_app; auto.
Qed.

Lemma match_tag_None_cases (r : str) :
  match_tag (c_lt :: r) = None ->
  r = [] \/ (exists r', r = c_gt :: r') \/ ~ In c_gt r.
Proof.
  unfold match_tag; simpl. destruct (span_not_gt r) as [body rest] eqn:Er.
  destruct (span_not_gt_spec _ _ _ Er) as (-> & Hno & Hrest).
  destruct body as [|b body].
  - intros _. destruct Hrest as [->|[a ->]]; simpl; eauto.
  - destruct rest as [|g rest]; [|discriminate].
    intros _. rewrite app_nil_r. auto.
Qed.

Lemma sub_tags_tag_free (s : str) : tag_free (sub_tags s) = true.
Proof.
  apply sub_tags_scan_ind with (P := fun _ r => tag_free r = true).
  - reflexivity.
  - auto.
  - intros c r E IH.
    cut (match_tag (c :: sub_tags r) = None).
    { intros E'. simpl tag_free. rewrite E'. assumption. }
    destruct (chr_eqb c c_lt) eqn:Ec; [|unfold match_tag; rewrite Ec; reflexivity].
    apply chr_eqb_eq in Ec; subst c.
    destruct (match_tag_None_cases _ E) as [->|[[r' ->]|Hno]].
    + reflexivity.
    + rewrite sub_tags_keep by reflexivity. reflexivity.
    + unfold match_tag; simpl. rewrite span_not_gt_no_gt.
      * destruct (sub_tags r); reflexivity.
      * intros Hin. apply Hno.
        apply TagsRemoved_In with (1 := sub_tags_removes r). assumption.
Qed.

Lemma tag_free_fixed (s : str) : tag_free s = true -> sub_tags s = s.
Proof.
  induction s as [|c r IH]; intros H.
  - reflexivity.
  - simpl tag_free in H.
    destruct (match_tag (c :: r)) eqn:E; [discriminate|].
    rewrite (sub_tags_keep _ _ E), IH; auto.
Qed.

Lemma tag_free_no_tag (s : str) : tag_free s = true <-> ~ contains_tag s.
Proof.
  split.
  - intros H (before & t & after & Ht & ->).
    induction before as [|c b IH].
    + simpl app in H. destruct (t ++ after) eqn:Et.
      * destruct Ht as (body & _ & _ & ->). discriminate.
      * simpl tag_free in H. rewrite <- Et in H.
        rewrite (match_tag_tag _ after Ht) in H. discriminate.
    + apply IH. simpl in H.
      destruct (match_tag (c :: b ++ t ++ after)); [discriminate | assumption].
  - induction s as [|c r IH]; intros H; [reflexivity|].
    simpl tag_free. destruct (match_tag (c :: r)) as [after|] eqn:E.
    + exfalso. apply H. apply match_tag_Some in E.
      destruct E as (body & Hne & Hno & E).
      exists [], (c_lt :: body ++ [c_gt]), after. split.
      * exists body; auto.
      * rewrite E. simpl. rewrite <- app_assoc. reflexivity.
    + apply IH. intros (before & t & after & Ht & ->).
      apply H. exists (c :: before), t, after. auto.
Qed.

(** C10. For every message [m], [clean_message m] is [m] with tags (a
    less-than sign, one or more characters other than the greater-than
    sign, a greater-than sign) taken out and all other characters kept in
    order; no tag is left in the result; and cleaning a cleaned message
    changes nothing. *)
Theorem clean_message_removes_all_tags (m : str) :
  TagsRemoved m (clean_message m) /\
  ~ contains_tag (clean_message m) /\
  clean_message (clean_message m) = clean_message m.
Proof.
  unfold clean_message. split; [apply sub_tags_removes|]. split.
  - apply tag_free_no_tag, sub_tags_tag_free.
  - apply tag_free_fixed, sub_tags_tag_free.
Qed.

End CleanMessage.

(** ** The PIN generated by [validate_api_key] *)

Module PinGeneration.

Import Cache Components Spec Samples.

Lemma str_of_int_digit (d : Z) :
  0 <= d <= 9 ->
  exists c, str_of_int d = [c] /\ is_digit c.
Proof.
  intros H.
  assert (d = 0 \/ d = 1 \/ d = 2 \/ d = 3 \/ d = 4 \/ d = 5 \/ d = 6
          \/ d = 7 \/ d = 8 \/ d = 9) as Hd by lia.
  repeat (destruct Hd as [->|Hd]); try subst d;
    (eexists; split; [reflexivity | vm_compute; split; discriminate]).
Qed.

Section WithRandomSource.

Context {Rng : Type} (randint : Z -> Z -> Rng -> Z * Rng).
Hypothesis randint_range :
  forall a b g, a <= b -> a <= fst (randint a b g) <= b.

Lemma draw_digits_spec (n : nat) (g : Rng) :
  List.length (List.concat (fst (draw_digits randint n g))) = n /\
  Forall is_digit
         (List.concat (fst (draw_digits randint n g))).
Proof.
  revert g; induction n as [|n IH]; intros g; simpl.
  - split; [reflexivity | constructor].
  - pose proof (randint_range 0 9 g ltac:(lia)) as Hd.
    destruct (randint 0 9 g) as [d g1]. simpl in Hd.
    specialize (IH g1). destruct (draw_digits randint n g1) as [ds g2].
    simpl in *. destruct (str_of_int_digit d Hd) as (c & -> & Hc).
    destruct IH as [Hlen Hall]. simpl. split; [lia | constructor; assumption].
Qed.

Lemma generate_pin_four_digits (g : Rng) :
  four_digits (fst (generate_pin randint g)).
Proof.
  unfold generate_pin. pose proof (draw_digits_spec 4 g) as H.
  destruct (draw_digits randint 4 g) as [ds g']. exact H.
Qed.

End WithRandomSource.

(** C3. Whatever the random source draws within the range asked of it,
    the PIN that [validate_api_key] shows after the key was accepted (and
    the PIN the step [generate_pin] makes in general) has exactly four
    characters, each a decimal digit, and it is the PIN whose verifier
    went into the vault. *)
Theorem generated_pin_is_four_digits
    (Rng : Type) (randint : Z -> Z -> Rng -> Z * Rng)
    (randint_range : forall a b g, a <= b -> a <= fst (randint a b g) <= b)
    (rt : Runtime) (derive : str -> str) (env : AuthEnv Rng)
    (self : AuthScreen) (client_key : option str) (cache : ChatCache)
    (pin : str) :
  out_pin_dialog (validate_api_key randint rt derive env self client_key cache)
    = Some pin ->
  four_digits pin /\
  pin = fst (generate_pin randint (env_rng env)) /\
  check_pin derive pin
    (out_cache (validate_api_key randint rt derive env self client_key cache))
    = true.
Proof.
  unfold validate_api_key.
  destruct (field_value (api_key_field self)) as [[|k key]|]; simpl;
    try discriminate.
  destruct (env_balance env) as [balance|ex]; simpl; [|discriminate].
  destruct (str_eqb balance (lit "Ошибка")); simpl; [discriminate|].
  pose proof (generate_pin_four_digits randint randint_range (env_rng env)) as H4.
  destruct (generate_pin randint (env_rng env)) as [p g] eqn:Eg. simpl in H4.
  unfold save_auth_data. destruct (env_durable env); simpl; [|discriminate].
  intros E; inversion E; subst p.
  repeat split; try apply H4.
  unfold check_pin; simpl. apply str_eqb_refl.
Qed.

Lemma lcg_randint_range (a b g : Z) :
  a <= b -> a <= fst (lcg_randint a b g) <= b.
Proof.
  intros H. unfold lcg_randint; simpl.
  pose proof (Z.mod_pos_bound g (b - a + 1) ltac:(lia)). lia.
Qed.

Lemma generated_pin_witness :
  out_pin_dialog (validate_api_key lcg_randint plain_runtime (fun s => s)
                    first_run_env key_entered None Cache.empty)
    = Some (lit "2743") /\
  four_digits (lit "2743").
Proof.
  assert (out_pin_dialog (validate_api_key lcg_randint plain_runtime (fun s => s)
                    first_run_env key_entered None Cache.empty)
          = Some (lit "2743")) as H by (vm_compute; reflexivity).
  split; [exact H|].
  exact (proj1 (generated_pin_is_four_digits Z lcg_randint lcg_randint_range
                  plain_runtime (fun s => s) first_run_env key_entered None
                  Cache.empty (lit "2743") H)).
Defined.

End PinGeneration.

(** ** The vault *)

Module Vault.

Import Cache Components Spec Samples.

Lemma vault_after_snoc (derive : str -> str) (ops : list VaultOp) (op : VaultOp) :
  vault_after derive (ops ++ [op]) = apply_op derive (vault_after derive ops) op.
Proof. unfold vault_after. rewrite fold_left_app. reflexivity. Qed.

Lemma last_stored_pin_snoc (ops : list VaultOp) (op : VaultOp) :
  last_stored_pin (ops ++ [op]) = newest_pin (op :: List.rev ops).
Proof. unfold last_stored_pin. rewrite rev_unit. reflexivity. Qed.

(** The verifier in the vault is the one derived from the PIN of the most
    recent successful store, and there is none after a reset or before any
    store. *)
Lemma vault_holds_last_stored_pin (derive : str -> str) (ops : list VaultOp) :
  option_map pin_verifier (auth_data (vault_after derive ops))
  = option_map derive (last_stored_pin ops).
Proof.
  induction ops as [|op ops IH] using rev_ind.
  - reflexivity.
  - rewrite vault_after_snoc, last_stored_pin_snoc.
    destruct op as [[|] key pin|]; simpl; try reflexivity.
    exact IH.
Qed.

Lemma four_digits_well_formed (rt : Runtime) (pin : str) :
  four_digits pin ->
  len pin = 4 /\ isdigit (py_unicode_digit rt) pin = true.
Proof.
  intros [Hlen Hall]. split.
  - unfold len. rewrite Hlen. reflexivity.
  - unfold isdigit. destruct pin as [|c pin]; [discriminate Hlen|].
    apply forallb_forall. intros x Hx.
    rewrite Forall_forall in Hall. specialize (Hall x Hx).
    unfold char_isdigit, is_ascii_digit, is_digit, c_zero, c_nine in *.
    replace (x <? 128)%N with true by (symmetry; apply N.ltb_lt; lia).
    apply andb_true_iff; split; apply N.leb_le; lia.
Qed.

(** The PIN screen calls [on_pin_validated] exactly on a PIN of four
    characters, all digits, that the vault verifies. *)
Lemma validate_pin_accepts (rt : Runtime) (derive : str -> str)
    (screen : PinScreen) (cache : ChatCache) (p : str) :
  snd (validate_pin rt derive (enter_pin p screen) cache) = true
  <-> len p = 4 /\ isdigit (py_unicode_digit rt) p = true
      /\ check_pin derive p cache = true.
Proof.
  unfold validate_pin. cbn [enter_pin pin_field field_value].
  destruct p as [|c p'].
  - cbn [snd]. split; [discriminate | intros [H _]; discriminate H].
  - destruct (len (c :: p') =? 4) eqn:Elen; cbn [negb].
    + apply Z.eqb_eq in Elen.
      destruct (isdigit (py_unicode_digit rt) (c :: p')) eqn:Edig; cbn [negb].
      * destruct (check_pin derive (c :: p') cache); cbn [snd]; tauto.
      * cbn [snd]. split; [discriminate | intros (_ & H & _); discriminate H].
    + apply Z.eqb_neq in Elen. cbn [snd]. split; [discriminate | tauto].
Qed.



Example sample_ops_pin : last_stored_pin sample_ops = Some (lit "4821").
Proof. reflexivity. Qed.

Example reset_forgets_pin :
  last_stored_pin [StoreCredential true (lit "k") (lit "1234"); ResetVault] = None.
Proof. reflexivity. Qed.

End Vault.

(** ** The session gate *)

Module Gate.

Import Cache Components Main Spec Samples.

(** C8. At launch the gate is locked, with the PIN screen on the page, when
    the cache holds authentication data, and it is in the state without
    credential, with the key screen on the page, when it holds none; in
    both cases nobody is authenticated yet. *)
Theorem launch_screen_follows_stored_credential (c : ChatCache) (key : option str) :
  session_state (launch c key)
    = Some (if has_auth_data c then Locked else NoCredential) /\
  page_controls (launch c key)
    = [if has_auth_data c then PinScreenControl else AuthScreenControl] /\
  pin_screen (launch c key)
    = (if has_auth_data c then Some PinScreen_new else None) /\
  auth_screen (launch c key)
    = (if has_auth_data c then None else Some AuthScreen_new) /\
  is_authenticated (launch c key) = false.
Proof.
  unfold launch, run, main, and_then, read, ChatApp_new; simpl.
  destruct (has_auth_data c); repeat split.
Qed.

(** A PIN the vault does not verify is refused whatever the screen showed
    before; the message depends on the PIN only. *)
Lemma validate_pin_refuses (rt : Runtime) (derive : str -> str)
    (cache : ChatCache) (p : str) :
  check_pin derive p cache = false ->
  exists message, forall screen,
    validate_pin rt derive (enter_pin p screen) cache = (refused p message, false).
Proof.
  intros Hcheck. unfold validate_pin, enter_pin; simpl.
  destruct p as [|c p'].
  - eexists; intros screen; reflexivity.
  - destruct (negb (len (c :: p') =? 4)).
    + eexists; intros screen; reflexivity.
    + destruct (negb (isdigit (py_unicode_digit rt) (c :: p'))).
      * eexists; intros screen; reflexivity.
      * rewrite Hcheck. eexists; intros screen; reflexivity.
Qed.

Lemma submit_pin_refused (rt : Runtime) (derive : str -> str)
    (env : InterfaceEnv) (a : ChatApp) (screen : PinScreen) (p : str) :
  pin_screen a = Some screen ->
  check_pin derive p (cache a) = false ->
  exists message,
    run (submit_pin rt derive env p) a
      = set_pin_screen (Some (refused p message)) a /\
    forall a' screen', pin_screen a' = Some screen' -> cache a' = cache a ->
      run (submit_pin rt derive env p) a'
        = set_pin_screen (Some (refused p message)) a'.
Proof.
  intros Hscreen Hcheck.
  destruct (validate_pin_refuses rt derive (cache a) p Hcheck) as [message Hm].
  exists message. split.
  - unfold run, submit_pin. rewrite Hscreen, Hm. reflexivity.
  - intros a' screen' Hscreen' Hcache. unfold run, submit_pin.
    rewrite Hscreen', Hcache, Hm. reflexivity.
Qed.

(** What refused PINs leave alone. *)
Lemma submit_all_refused (rt : Runtime) (derive : str -> str)
    (env : InterfaceEnv) (pins : list str) (a : ChatApp) (screen : PinScreen) :
  pin_screen a = Some screen ->
  Forall (fun p => check_pin derive p (cache a) = false) pins ->
  exists screen',
    submit_all rt derive env pins a = set_pin_screen (Some screen') a.
Proof.
  revert a screen; induction pins as [|p pins IH]; intros a screen Hscreen Hall.
  - exists screen. destruct a; simpl in *; subst; reflexivity.
  - inversion Hall as [|? ? Hp Hrest]; subst.
    destruct (submit_pin_refused rt derive env a screen p Hscreen Hp)
      as (message & Hrun & _).
    simpl. rewrite Hrun.
    destruct (IH (set_pin_screen (Some (refused p message)) a)
                 (refused p message) eq_refl Hrest) as [screen' Hs].
    exists screen'. rewrite Hs. reflexivity.
Qed.

Lemma on_auth_success_authenticates (rt : Runtime) (env : InterfaceEnv) (a : ChatApp) :
  is_authenticated (snd (on_auth_success rt env a)) = true.
Proof.
  unfold on_auth_success, initialize_main_interface, update_balance,
    load_chat_history, try_except, and_then, update, log, lift.
  simpl. destruct (env_balance_reply env); reflexivity.
Qed.

Lemma submit_pin_accepted (rt : Runtime) (derive : str -> str)
    (env : InterfaceEnv) (a : ChatApp) (screen : PinScreen) (q : str) :
  pin_screen a = Some screen ->
  len q = 4 -> isdigit (py_unicode_digit rt) q = true ->
  check_pin derive q (cache a) = true ->
  session_state (run (submit_pin rt derive env q) a) = Some Authenticated.
Proof.
  intros Hscreen Hlen Hdigit Hcheck.
  unfold run, submit_pin. rewrite Hscreen.
  unfold validate_pin; simpl.
  destruct q as [|c q']; [discriminate|].
  rewrite Hlen, Hdigit; simpl. rewrite Hcheck.
  unfold session_state. rewrite on_auth_success_authenticates. reflexivity.
Qed.



Example correct_pin_after_failures :
  session_state
    (run (submit_pin plain_runtime keep_pin quiet_env (lit "4821"))
         (submit_all plain_runtime keep_pin quiet_env wrong_pins relaunched))
  = Some Authenticated.
Proof. reflexivity. Qed.


End Gate.

(** ** The chat turn *)

Module ChatTurn.

Import Cache Components Main Spec Samples.

(** C9. An empty message, [None] or the empty string, makes
    [send_message] return at once: the application is left exactly as it
    was, so no request went to the API, nothing was appended to the
    transcript, and no call reached the analytics. *)
Theorem empty_message_is_ignored
    (rt : Runtime) (env : SendEnv) (message : option str) (a : ChatApp) :
  truthy message = false ->
  send_message rt env message a = (Ok tt, a) /\
  events (run (send_message rt env message) a) = events a /\
  history (cache (run (send_message rt env message) a)) = history (cache a).
Proof.
  intros H. destruct message as [[|c m]|]; try discriminate H;
    repeat split; reflexivity.
Qed.

Lemma dict_get_contains (key : str) (d : dict) (v : json) :
  dict_get key d = Some v -> dict_contains key d = true.
Proof.
  induction d as [|[k w] d IH]; simpl; [discriminate|].
  destruct (str_eqb k key); simpl; auto.
Qed.




Lemma empty_message_witness :
  send_message plain_runtime failing_env (Some []) chat_app = (Ok tt, chat_app) /\
  events (run (send_message plain_runtime failing_env (Some [])) chat_app)
    = events chat_app /\
  history (cache (run (send_message plain_runtime failing_env (Some [])) chat_app))
    = history (cache chat_app).
Proof.
  apply (empty_message_is_ignored plain_runtime failing_env (Some []) chat_app).
  reflexivity.
Defined.

(** A message that is not empty does go to the API client. *)
Example message_is_sent :
  In (ApiSendMessage (lit "hi") (Some (lit "model-a")))
     (events (run (send_message plain_runtime failing_env (Some (lit "hi")))
                  chat_app)).
Proof. vm_compute. tauto. Qed.

End ChatTurn.

(** ** Decimal numerals *)

Module Numerals.

Import Spec Json Clock.

Lemma digit_char_is_digit (d : N) :
  (d < 10)%N ->
  is_ascii_digit (digit_char d) = true /\ (digit_char d - 48 = d)%N.
Proof.
  intros H. unfold is_ascii_digit, digit_char, c_zero, c_nine.
  split; [|lia].
  apply andb_true_iff; split; apply N.leb_le; lia.
Qed.

Lemma digits_of_app (f : nat) (n : N) (acc rest : str) :
  digits_of f n acc ++ rest = digits_of f n (acc ++ rest).
Proof.
  revert n acc; induction f as [|f IH]; intros n acc; simpl.
  - reflexivity.
  - destruct (n <? 10)%N; [reflexivity|]. rewrite IH. reflexivity.
Qed.

Lemma pow2_succ (f : nat) : (2 ^ N.of_nat (S f) = 2 * 2 ^ N.of_nat f)%N.
Proof. rewrite Nat2N.inj_succ, N.pow_succ_r'. reflexivity. Qed.

Lemma read_digits_cons (v : N) (c : char) (r : str) :
  read_digits v (c :: r)
  = if is_ascii_digit c then read_digits (v * 10 + (c - 48))%N r else (v, c :: r).
Proof. reflexivity. Qed.

(** Reading the digits of [n] continues the number read so far. *)
Lemma read_digits_digits_of (f : nat) (n : N) (acc : str) :
  (n < 2 ^ N.of_nat f)%N ->
  exists k, forall v,
    read_digits v (digits_of f n acc) = read_digits (v * 10 ^ k + n)%N acc.
Proof.
  revert n acc; induction f as [|f IH]; intros n acc Hn.
  - exists 0%N. intros v. simpl in *.
    assert (n = 0)%N as -> by lia.
    rewrite N.mul_1_r, N.add_0_r. reflexivity.
  - simpl digits_of. destruct (n <? 10)%N eqn:E.
    + apply N.ltb_lt in E. exists 1%N. intros v.
      destruct (digit_char_is_digit n E) as [Hd Hv].
      rewrite read_digits_cons, Hd, Hv, N.pow_1_r. reflexivity.
    + apply N.ltb_ge in E. rewrite pow2_succ in Hn.
      assert (n / 10 < 2 ^ N.of_nat f)%N as Hq.
      { apply N.Div0.div_lt_upper_bound. lia. }
      destruct (IH (n / 10)%N (digit_char (n mod 10) :: acc) Hq) as [k Hk].
      exists (N.succ k). intros v. rewrite Hk.
      assert (n mod 10 < 10)%N as Hm by (apply N.mod_lt; lia).
      destruct (digit_char_is_digit _ Hm) as [Hd Hv].
      rewrite read_digits_cons, Hd, Hv. f_equal.
      rewrite N.pow_succ_r'.
      pose proof (N.div_mod n 10 ltac:(lia)). lia.
Qed.

(** The numeral of a positive number starts with a digit other than
    zero. *)
Lemma digits_of_head (f : nat) (n : N) (acc : str) :
  (0 < n < 2 ^ N.of_nat (S f))%N ->
  exists d tl, digits_of (S f) n acc = digit_char d :: tl /\ (0 < d < 10)%N.
Proof.
  revert n acc; induction f as [|f IH]; intros n acc Hn.
  - simpl in Hn. assert (n = 1)%N as -> by lia.
    exists 1%N, acc. split; [reflexivity | lia].
  - cbn [digits_of]. destruct (n <? 10)%N eqn:E.
    + apply N.ltb_lt in E. exists n, acc. split; [reflexivity | lia].
    + apply N.ltb_ge in E.
      assert (0 < n / 10 < 2 ^ N.of_nat (S f))%N as Hq.
      { split.
        - apply N.div_str_pos. lia.
        - apply N.Div0.div_lt_upper_bound. rewrite pow2_succ in Hn. lia. }
      destruct (IH (n / 10)%N (digit_char (n mod 10) :: acc) Hq)
        as (d & tl & Hd & Hr).
      exists d, tl. split; [|exact Hr].
      cbn [digits_of] in Hd. exact Hd.
Qed.

Lemma str_of_N_fuel (n : N) : (n < 2 ^ N.of_nat (S (N.to_nat (N.log2 n))))%N.
Proof.
  rewrite Nat2N.inj_succ, N2Nat.id.
  destruct n as [|p]; [reflexivity|].
  apply N.log2_spec. reflexivity.
Qed.

Lemma digit_char_digit (d : N) : (d < 10)%N -> is_digit (digit_char d).
Proof. unfold is_digit, digit_char, c_zero, c_nine. lia. Qed.

Lemma digits_of_all_digits (f : nat) (n : N) (acc : str) :
  Forall is_digit acc -> Forall is_digit (digits_of f n acc).
Proof.
  revert n acc; induction f as [|f IH]; intros n acc Hacc; simpl; [exact Hacc|].
  destruct (n <? 10)%N eqn:E.
  - apply N.ltb_lt in E. constructor; [apply digit_char_digit|]; assumption.
  - apply IH. constructor; [|assumption].
    apply digit_char_digit. apply N.mod_lt. discriminate.
Qed.

Lemma digits_of_length (f : nat) (n : N) (acc : str) (w : nat) :
  (n < 10 ^ N.of_nat w)%N -> (1 <= w)%nat ->
  (List.length (digits_of f n acc) <= w + List.length acc)%nat.
Proof.
  revert n acc w; induction f as [|f IH]; intros n acc w Hn Hw; simpl; [lia|].
  destruct (n <? 10)%N eqn:E.
  - simpl. lia.
  - apply N.ltb_ge in E. destruct w as [|[|w]]; [lia| simpl in Hn; lia|].
    specialize (IH (n / 10)%N (digit_char (n mod 10) :: acc) (S w)).
    simpl List.length in IH. 
    assert (n / 10 < 10 ^ N.of_nat (S w))%N as Hq.
    { apply N.Div0.div_lt_upper_bound.
      rewrite (Nat2N.inj_succ (S w)), N.pow_succ_r' in Hn. lia. }
    specialize (IH Hq ltac:(lia)). lia.
Qed.

Lemma zero_pad_digits (w : nat) (z : Z) :
  0 <= z < 10 ^ Z.of_nat w -> (1 <= w)%nat ->
  List.length (zero_pad w z) = w /\ Forall is_digit (zero_pad w z).
Proof.
  intros Hz Hw. unfold zero_pad.
  assert (str_of_int z = str_of_N (Z.to_N z)) as ->.
  { destruct z; try reflexivity. lia. }
  assert (List.length (str_of_N (Z.to_N z)) <= w)%nat as Hlen.
  { unfold str_of_N.
    pose proof (digits_of_length (S (N.to_nat (N.log2 (Z.to_N z)))) (Z.to_N z) [] w) as H.
    simpl List.length in H. rewrite Nat.add_0_r in H. apply H; [|assumption].
    assert (10 ^ N.of_nat w = Z.to_N (10 ^ Z.of_nat w))%N as ->.
    { rewrite Z2N.inj_pow by lia. rewrite <- nat_N_Z, N2Z.id. reflexivity. }
    apply Z2N.inj_lt; lia. }
  split.
  - rewrite length_app, repeat_length. lia.
  - apply Forall_app. split.
    + apply Forall_forall. intros x Hx. apply repeat_spec in Hx. subst.
      unfold is_digit, c_zero, c_nine. lia.
    + apply digits_of_all_digits. constructor.
Qed.

End Numerals.

(** ** The export: the file and its name *)

Module ExportFile.

Import Cache Components Clock Main Spec Samples Numerals.

Example epoch_is_1970 :
  datetime_of_seconds 0
  = {| year := 1970; month := 1; day := 1; hour := 0; minute := 0; second := 0 |}.
Proof. reflexivity. Qed.

Example november_2023 :
  datetime_of_seconds 1700000000
  = {| year := 2023; month := 11; day := 14; hour := 22; minute := 13; second := 20 |}.
Proof. reflexivity. Qed.

Example leap_day_2024 :
  datetime_of_seconds 1709164800
  = {| year := 2024; month := 2; day := 29; hour := 0; minute := 0; second := 0 |}.
Proof. reflexivity. Qed.

(** The fields of a date and time between 1970 and 9999 are in their
    ranges. *)
Lemma civil_ranges (s : Z) :
  0 <= s < 253402300800 ->
  let t := datetime_of_seconds s in
  1970 <= year t <= 9999 /\ 1 <= month t <= 12 /\ 1 <= day t <= 31 /\
  0 <= hour t <= 23 /\ 0 <= minute t <= 59 /\ 0 <= second t <= 59.
Proof.
  intros Hs. unfold datetime_of_seconds, civil_from_days.
  set (days := s / 86400).
  assert (0 <= days <= 2932896) as Hdays
    by (subst days; Z.div_mod_to_equations; lia).
  set (sod := s mod 86400).
  assert (0 <= sod < 86400) as Hsod by (subst sod; apply Z.mod_pos_bound; lia).
  clearbody days sod. clear s Hs.
  set (z := days + 719468).
  set (era := z / 146097).
  set (doe := z - era * 146097).
  assert (0 <= doe < 146097 /\ 4 <= era <= 24
          /\ (era = 24 -> doe <= 146036) /\ (era = 4 -> 135080 <= doe))
    as (Hdoe & Hera & Hlast & Hfirst).
  { subst doe era z. Z.div_mod_to_equations. lia. }
  clearbody doe era. clear z days Hdays.
  set (yoe := (doe - doe / 1460 + doe / 36524 - doe / 146096) / 365).
  set (doy := doe - (365 * yoe + yoe / 4 - yoe / 100)).
  assert (0 <= yoe <= 399 /\ 0 <= doy <= 365
          /\ (era = 24 -> yoe = 399 -> doy <= 305)
          /\ (era = 4 -> 369 <= yoe) /\ (era = 4 -> yoe = 369 -> 306 <= doy))
    as (Hyoe & Hdoy & Hl & Hf & Hjan).
  { subst doy yoe. Z.div_mod_to_equations. lia. }
  clearbody doy yoe. 
  set (mp := (5 * doy + 2) / 153).
  set (d := doy - (153 * mp + 2) / 5 + 1).
  assert (0 <= mp <= 11 /\ 1 <= d <= 31 /\ (doy <= 305 -> mp <= 9)
          /\ (306 <= doy -> 10 <= mp))
    as (Hmp & Hd & Hmar & Hjanfeb).
  { subst d mp. Z.div_mod_to_equations. lia. }
  clearbody mp d.
  cbn [year month day hour minute second].
  assert (0 <= sod / 3600 <= 23 /\ 0 <= sod mod 3600 / 60 <= 59
          /\ 0 <= sod mod 60 <= 59) as (Hh & Hm & Hsec)
    by (Z.div_mod_to_equations; lia).
  destruct (mp <? 10) eqn:E; [apply Z.ltb_lt in E | apply Z.ltb_ge in E].
  - replace (mp + 3 <=? 2) with false by (symmetry; apply Z.leb_gt; lia).
    repeat split; try lia.
  - replace (mp - 9 <=? 2) with true by (symmetry; apply Z.leb_le; lia).
    repeat split; try lia.
Qed.

Lemma strftime_compact_shape (t : datetime) :
  0 <= year t <= 9999 -> 0 <= month t <= 99 -> 0 <= day t <= 99 ->
  0 <= hour t <= 99 -> 0 <= minute t <= 99 -> 0 <= second t <= 99 ->
  compact_stamp (strftime_compact t).
Proof.
  intros Hy Hm Hd Hh Hmi Hs.
  destruct (zero_pad_digits 4 (year t)) as [Ly Dy]; [simpl; lia | lia |].
  destruct (zero_pad_digits 2 (month t)) as [Lm Dm]; [simpl; lia | lia |].
  destruct (zero_pad_digits 2 (day t)) as [Ld Dd]; [simpl; lia | lia |].
  destruct (zero_pad_digits 2 (hour t)) as [Lh Dh]; [simpl; lia | lia |].
  destruct (zero_pad_digits 2 (minute t)) as [Lmi Dmi]; [simpl; lia | lia |].
  destruct (zero_pad_digits 2 (second t)) as [Ls Ds]; [simpl; lia | lia |].
  exists (zero_pad 4 (year t) ++ zero_pad 2 (month t) ++ zero_pad 2 (day t)),
         (zero_pad 2 (hour t) ++ zero_pad 2 (minute t) ++ zero_pad 2 (second t)).
  unfold strftime_compact. rewrite !length_app, Ly, Lm, Ld, Lh, Lmi, Ls.
  repeat split.
  - rewrite <- !app_assoc. reflexivity.
  - apply Forall_app; split; [assumption | apply Forall_app; split; assumption].
  - apply Forall_app; split; [assumption | apply Forall_app; split; assumption].
Qed.

Lemma new_events_app (a a' : ChatApp) (added : list Event) :
  events a' = events a ++ added -> new_events a a' = added.
Proof.
  intros H. unfold new_events. rewrite H.
  rewrite skipn_app, skipn_all, Nat.sub_diag. reflexivity.
Qed.

(** What an export does: it adds the file and a log line to the events
    when the disk takes the file and the text can be encoded, and an error
    log line otherwise; it never touches the cache. *)
Lemma save_dialog_events (rt : Runtime) (env : ExportEnv) (a : ChatApp) :
  let document := Json.dumps (dialog_data rt (get_chat_history (cache a))) in
  let filename := export_filename (exports_dir a) (export_clock env) in
  new_events a (run (save_dialog rt env) a)
  = match export_disk env with
    | Ok _ =>
      if List.forallb utf8_encodable document then
        [FileWritten filename (utf8_encode document);
         Logged INFO (lit "История диалога сохранена в " ++ filename)]
      else
        [Logged ERROR (lit "Ошибка сохранения: " ++ py_exn_str rt UnicodeEncodeError)]
    | Raise e =>
      [Logged ERROR (lit "Ошибка сохранения: " ++ py_exn_str rt e)]
    end
  /\ cache (run (save_dialog rt env) a) = cache a.
Proof.
  intros document filename.
  unfold run, save_dialog, try_except, and_then, read, write_json.
  subst document filename.
  destruct (export_disk env) as [[]|e]; simpl.
  - destruct (List.forallb utf8_encodable _); simpl.
    + split; [|reflexivity]. apply new_events_app. simpl.
      rewrite <- app_assoc. reflexivity.
    + split; [|reflexivity]. apply new_events_app. reflexivity.
  - split; [|reflexivity]. apply new_events_app. reflexivity.
Qed.




End ExportFile.

(** ** The aggregator *)

Module Aggregator.

Import Cache Analytics Main Spec Samples.

Lemma fold_acc_step (entries : list Entry) (a : Acc) :
  let r := fold_left acc_step entries a in
  acc_count r = acc_count a + Z.of_nat (List.length entries) /\
  acc_tokens r = acc_tokens a + sum_tokens entries /\
  acc_first r = match acc_first a with
                | Some t => Some t
                | None => first_timestamp entries
                end /\
  acc_last r = match last_timestamp entries with
               | Some t => Some t
               | None => acc_last a
               end.
Proof.
  revert a; induction entries as [|e es IH]; intros a.
  - simpl. repeat split; try lia. destruct (acc_first a); reflexivity.
  - cbn [fold_left]. destruct (IH (acc_step a e)) as (Hc & Ht & Hf & Hl).
    cbv zeta. rewrite Hc, Ht, Hf, Hl. cbn [acc_step acc_count acc_tokens acc_first acc_last].
    repeat split.
    + rewrite length_cons. lia.
    + simpl. lia.
    + destruct (acc_first a); reflexivity.
    + unfold last_timestamp. simpl rev.
      destruct (rev es) as [|x xs]; reflexivity.
Qed.


(** The scenario of the spec: tokens 10, 0 and 25 give 3 messages, 35
    tokens and 35/3 tokens per message; over 90 seconds the rate is 2
    messages per minute. *)
Example three_entries_snapshot :
  aggregate seconds_of_decimal three_entries
  = {| total_messages := 3; total_tokens := 35;
       tokens_per_message := 35 # 3; messages_per_minute := 2 |}.
Proof. reflexivity. Qed.

Example empty_snapshot :
  aggregate seconds_of_decimal []
  = {| total_messages := 0; total_tokens := 0;
       tokens_per_message := 0; messages_per_minute := 0 |}.
Proof. reflexivity. Qed.


End Aggregator.

(** ** The export: reading the document back *)

Module JsonRoundTrip.

Import Cache Components Main Spec Json Samples Numerals.

(** *** Numbers *)

Lemma ends_value_no_digit (rest : str) (v : N) :
  ends_value rest -> read_digits v rest = (v, rest).
Proof.
  destruct rest as [|c r]; simpl; [reflexivity|].
  intros [->| ->]; reflexivity.
Qed.

Lemma ends_value_no_float (rest : str) :
  ends_value rest -> float_follows rest = false.
Proof.
  destruct rest as [|c [|d r]]; simpl; try reflexivity.
  intros [->| ->]; reflexivity.
Qed.

Lemma scan_natural_str_of_N (n : N) (rest : str) :
  ends_value rest ->
  scan_natural (str_of_N n ++ rest) = Some (n, rest) /\
  exists c tl, str_of_N n ++ rest = c :: tl /\ is_ascii_digit c = true.
Proof.
  intros Hrest. unfold str_of_N. rewrite digits_of_app. simpl app.
  destruct (N.eq_dec n 0) as [->|Hpos].
  - simpl. split; [reflexivity|]. eexists; eexists; split; reflexivity.
  - destruct (digits_of_head (N.to_nat (N.log2 n)) n rest) as (d & tl & Hd & Hr).
    { split; [lia | apply str_of_N_fuel]. }
    destruct (digit_char_is_digit d ltac:(lia)) as [Hdig Hval].
    split.
    + destruct (read_digits_digits_of (S (N.to_nat (N.log2 n))) n rest
                  (str_of_N_fuel n)) as [k Hk].
      specialize (Hk 0%N). rewrite N.mul_0_l, N.add_0_l in Hk.
      rewrite (ends_value_no_digit rest n Hrest) in Hk.
      unfold scan_natural. rewrite Hd in *.
      replace (digit_char d =? 48)%N with false.
      * rewrite Hdig, Hk. reflexivity.
      * symmetry. apply N.eqb_neq. unfold digit_char, c_zero. lia.
    + exists (digit_char d), tl. split; assumption.
Qed.

Lemma scan_number_str_of_int (z : Z) (rest : str) :
  ends_value rest ->
  scan_number (str_of_int z ++ rest) = Some (JInt z, rest).
Proof.
  intros Hrest. unfold scan_number, str_of_int.
  destruct z as [|p|p].
  - destruct (scan_natural_str_of_N 0 rest Hrest) as [Hs (c & tl & Hc & Hd)].
    rewrite Hc in *.
    replace (c =? 45)%N with false
      by (unfold is_ascii_digit, c_zero, c_nine in Hd;
          apply andb_true_iff in Hd; destruct Hd as [H1 H2];
          apply N.leb_le in H1, H2; symmetry; apply N.eqb_neq; lia).
    rewrite Hs, ends_value_no_float by assumption. reflexivity.
  - destruct (scan_natural_str_of_N (Npos p) rest Hrest) as [Hs (c & tl & Hc & Hd)].
    rewrite Hc in *.
    replace (c =? 45)%N with false
      by (unfold is_ascii_digit, c_zero, c_nine in Hd;
          apply andb_true_iff in Hd; destruct Hd as [H1 H2];
          apply N.leb_le in H1, H2; symmetry; apply N.eqb_neq; lia).
    rewrite Hs, ends_value_no_float by assumption. reflexivity.
  - destruct (scan_natural_str_of_N (Npos p) rest Hrest) as [Hs _].
    simpl app. cbn [N.eqb Pos.eqb]. change (45 =? 45)%N with true. cbv iota.
    rewrite Hs, ends_value_no_float by assumption. reflexivity.
Qed.

(** *** Strings *)

Lemma scanstring_plain (c : char) (r : str) :
  (c =? 34)%N = false -> (c =? 92)%N = false -> (c <? 32)%N = false ->
  scanstring (c :: r) = cons_char c (scanstring r).
Proof.
  intros H1 H2 H3. destruct r as [|e r]; cbn [scanstring];
    rewrite H1, H2, H3; reflexivity.
Qed.

Ltac split_tail tail :=
  destruct tail as [|? [|? [|? [|? [|? [|? [|? ?]]]]]]]; reflexivity.

(** Reading the replacement of a character gives the character back. *)
Lemma scanstring_escape_char (c : char) (tail : str) :
  scanstring (escape_char c ++ tail) = cons_char c (scanstring tail).
Proof.
  destruct (c <? 32)%N eqn:Elow.
  - apply N.ltb_lt in Elow.
    assert (c = 0 \/ c = 1 \/ c = 2 \/ c = 3 \/ c = 4 \/ c = 5 \/ c = 6
            \/ c = 7 \/ c = 8 \/ c = 9 \/ c = 10 \/ c = 11 \/ c = 12
            \/ c = 13 \/ c = 14 \/ c = 15 \/ c = 16 \/ c = 17 \/ c = 18
            \/ c = 19 \/ c = 20 \/ c = 21 \/ c = 22 \/ c = 23 \/ c = 24
            \/ c = 25 \/ c = 26 \/ c = 27 \/ c = 28 \/ c = 29 \/ c = 30
            \/ c = 31)%N as Hc by lia.
    repeat (destruct Hc as [->|Hc]); try subst c;
      try reflexivity; simpl; split_tail tail.
  - unfold escape_char. rewrite Elow.
    destruct (c =? 34)%N eqn:E34; [apply N.eqb_eq in E34; subst; reflexivity|].
    destruct (c =? 92)%N eqn:E92; [apply N.eqb_eq in E92; subst; reflexivity|].
    destruct (c =? 10)%N eqn:E10; [apply N.eqb_eq in E10; subst; discriminate|].
    destruct (c =? 13)%N eqn:E13; [apply N.eqb_eq in E13; subst; discriminate|].
    destruct (c =? 9)%N eqn:E9; [apply N.eqb_eq in E9; subst; discriminate|].
    destruct (c =? 8)%N eqn:E8; [apply N.eqb_eq in E8; subst; discriminate|].
    destruct (c =? 12)%N eqn:E12; [apply N.eqb_eq in E12; subst; discriminate|].
    apply scanstring_plain; assumption.
Qed.

Lemma scanstring_encoded (s rest : str) :
  scanstring (List.flat_map escape_char s ++ 34%N :: rest) = Some (s, rest).
Proof.
  induction s as [|c s IH]; simpl flat_map.
  - reflexivity.
  - rewrite <- app_assoc, scanstring_escape_char, IH. reflexivity.
Qed.

Lemma encode_basestring_app (s rest : str) :
  encode_basestring s ++ rest
  = 34%N :: List.flat_map escape_char s ++ 34%N :: rest.
Proof.
  unfold encode_basestring. simpl. rewrite <- app_assoc. reflexivity.
Qed.

(** *** Values *)


Lemma cost_list (items : list json) : cost (JList items) = S (items_cost items).
Proof. reflexivity. Qed.

Lemma cost_dict (pairs : list (str * json)) :
  cost (JDict pairs) = S (pairs_cost pairs).
Proof. reflexivity. Qed.

Lemma distinct_keys_list (items : list json) :
  distinct_keys (JList items) <-> all_distinct items.
Proof. reflexivity. Qed.

Lemma distinct_keys_dict (pairs : list (str * json)) :
  distinct_keys (JDict pairs)
  <-> NoDup (List.map fst pairs) /\ all_distinct_values pairs.
Proof. reflexivity. Qed.

Lemma cost_pos (v : json) : (1 <= cost v)%nat.
Proof. destruct v; simpl; lia. Qed.

Lemma encode_list_cons (level : nat) (x : json) (xs : list json) :
  encode level (JList (x :: xs))
  = 91%N :: newline_indent (S level)
      ++ join (separator (S level)) (List.map (encode (S level)) (x :: xs))
      ++ newline_indent level ++ [93%N].
Proof. reflexivity. Qed.

Lemma encode_dict_cons (level : nat) (kv : str * json) (xs : list (str * json)) :
  encode level (JDict (kv :: xs))
  = 123%N :: newline_indent (S level)
      ++ join (separator (S level)) (List.map (encode_pair (S level)) (kv :: xs))
      ++ newline_indent level ++ [125%N].
Proof. reflexivity. Qed.

Lemma starts_value_digit (c : char) (tl : str) :
  is_ascii_digit c = true -> starts_value (c :: tl).
Proof.
  intros H. exists c, tl. unfold is_ascii_digit, c_zero, c_nine in H.
  apply andb_true_iff in H. destruct H as [H1 H2].
  apply N.leb_le in H1, H2.
  assert (c <> 32 /\ c <> 9 /\ c <> 10 /\ c <> 13 /\ c <> 93 /\ c <> 125)%N
    as (A & B & C & D & E & F) by lia.
  unfold is_ws.
  apply N.eqb_neq in A, B, C, D, E, F. rewrite A, B, C, D, E, F.
  repeat split.
Qed.

Lemma str_of_N_head (n : N) :
  exists c tl, str_of_N n = c :: tl /\ is_ascii_digit c = true.
Proof.
  destruct (N.eq_dec n 0) as [->|Hpos].
  - eexists; eexists; split; reflexivity.
  - destruct (digits_of_head (N.to_nat (N.log2 n)) n []) as (d & tl & Hd & Hr).
    { split; [lia | apply str_of_N_fuel]. }
    exists (digit_char d), tl. split; [exact Hd|].
    apply digit_char_is_digit. lia.
Qed.

Lemma encode_starts_value (level : nat) (v : json) (rest : str) :
  starts_value (encode level v ++ rest).
Proof.
  destruct v as [|[|]|z|s|[|x xs]|[|kv xs]];
    try (eexists; eexists; split; [reflexivity | repeat split]).
  simpl encode.
  destruct z as [|p|p]; unfold str_of_int.
  - destruct (str_of_N_head 0) as (c & tl & -> & Hd).
    apply starts_value_digit; assumption.
  - destruct (str_of_N_head (Npos p)) as (c & tl & -> & Hd).
    apply starts_value_digit; assumption.
  - eexists; eexists; split; [reflexivity | repeat split].
Qed.


(** *** White space and separators *)

Lemma skip_ws_spaces (n : nat) (s : str) :
  skip_ws (List.repeat 32%N n ++ s) = skip_ws s.
Proof. induction n; simpl; auto. Qed.

Lemma skip_ws_newline_indent (level : nat) (s : str) :
  skip_ws (newline_indent level ++ s) = skip_ws s.
Proof. unfold newline_indent. simpl. apply skip_ws_spaces. Qed.

Lemma skip_ws_starts_value (s : str) :
  starts_value s -> skip_ws s = s.
Proof. intros (c & tl & -> & Hws & _). simpl. rewrite Hws. reflexivity. Qed.

Lemma join_cons (sep : str) (p : str) (ps : list str) (tail : str) :
  join sep (p :: ps) ++ tail
  = p ++ match ps with
         | [] => tail
         | _ :: _ => sep ++ join sep ps ++ tail
         end.
Proof.
  destruct ps as [|q qs]; [reflexivity|].
  cbn [join]. rewrite <- !app_assoc. reflexivity.
Qed.

Lemma scan_items_step (f : nat) (s : str) (seen : list json) :
  scan_items (S f) s seen
  = match scan_once f s with
    | None => None
    | Some (v, rest) =>
      match skip_ws rest with
      | [] => None
      | c :: r =>
        if (c =? 93)%N then Some (JList (List.rev (v :: seen)), r)
        else if (c =? 44)%N then scan_items f (skip_ws r) (v :: seen)
        else None
      end
    end.
Proof. reflexivity. Qed.

Lemma scan_once_open_list (f : nat) (r : str) :
  starts_value (skip_ws r) ->
  scan_once (S f) (91%N :: r) = scan_items f (skip_ws r) [].
Proof.
  intros (c & tl & E & _ & H93 & _). simpl. rewrite E, H93. reflexivity.
Qed.

Lemma scan_once_open_dict (f : nat) (r : str) :
  starts_value (skip_ws r) ->
  scan_once (S f) (123%N :: r) = scan_pairs f (skip_ws r) [].
Proof.
  intros (c & tl & E & _ & _ & H125). simpl. rewrite E, H125. reflexivity.
Qed.

Lemma ends_value_separator (level : nat) (s : str) :
  ends_value (separator level ++ s).
Proof. simpl. auto. Qed.

Lemma ends_value_newline (level : nat) (s : str) :
  ends_value (newline_indent level ++ s).
Proof. simpl. auto. Qed.

(** *** Lists and dictionaries *)

Lemma scan_items_join (level : nat) (items : list json) :
  Forall reads_back items -> all_distinct items -> items <> [] ->
  forall f seen rest, (items_cost items <= f)%nat ->
    scan_items f
      (join (separator (S level)) (List.map (encode (S level)) items)
         ++ newline_indent level ++ 93%N :: rest) seen
    = Some (JList (List.rev seen ++ items), rest).
Proof.
  induction items as [|x xs IH]; intros Hall Hwf Hne f seen rest Hf;
    [congruence|].
  inversion Hall as [|? ? Hx Hxs]; subst. destruct Hwf as [Hwx Hwxs].
  simpl in Hf. destruct f as [|f]; [lia|].
  rewrite scan_items_step. cbn [List.map]. rewrite join_cons.
  destruct xs as [|y ys]; cbn [List.map]; cbv iota.
  - rewrite (Hx Hwx (S level) f _ ltac:(lia) (ends_value_newline level _)).
    rewrite skip_ws_newline_indent. simpl. reflexivity.
  - rewrite (Hx Hwx (S level) f _ ltac:(lia)
               (ends_value_separator (S level) _)).
    unfold separator at 1. cbn [app skip_ws is_ws N.eqb Pos.eqb orb].
    rewrite skip_ws_newline_indent.
    cbn [List.map] in *.
    rewrite join_cons.
    rewrite skip_ws_starts_value by apply encode_starts_value.
    rewrite <- join_cons.
    rewrite (IH Hxs Hwxs ltac:(discriminate) f (x :: seen) rest).
    + simpl. rewrite <- app_assoc. reflexivity.
    + simpl in *. lia.
Qed.

Lemma scan_pairs_step (f : nat) (r0 : str) (seen : list (str * json)) :
  scan_pairs (S f) (34%N :: r0) seen
  = match scanstring r0 with
    | None => None
    | Some (key, after_key) =>
      match skip_ws after_key with
      | [] => None
      | colon :: r1 =>
        if (colon =? 58)%N then
          match scan_once f (skip_ws r1) with
          | None => None
          | Some (v, rest) =>
            match skip_ws rest with
            | [] => None
            | c :: r =>
              if (c =? 125)%N then
                Some (JDict (dict_of_pairs (List.rev ((key, v) :: seen))), r)
              else if (c =? 44)%N then
                scan_pairs f (skip_ws r) ((key, v) :: seen)
              else None
            end
          end
        else None
      end
    end.
Proof. reflexivity. Qed.

Lemma encode_pair_app (level : nat) (kv : str * json) (tail : str) :
  encode_pair level kv ++ tail
  = 34%N :: List.flat_map escape_char (fst kv)
      ++ 34%N :: 58%N :: 32%N :: encode level (snd kv) ++ tail.
Proof.
  unfold encode_pair. rewrite <- app_assoc, encode_basestring_app.
  rewrite <- app_assoc. reflexivity.
Qed.

Lemma scan_pairs_join (level : nat) (pairs : list (str * json)) :
  Forall (fun kv => reads_back (snd kv)) pairs ->
  all_distinct_values pairs -> pairs <> [] ->
  forall f seen rest, (pairs_cost pairs <= f)%nat ->
    scan_pairs f
      (join (separator (S level)) (List.map (encode_pair (S level)) pairs)
         ++ newline_indent level ++ 125%N :: rest) seen
    = Some (JDict (dict_of_pairs (List.rev seen ++ pairs)), rest).
Proof.
  induction pairs as [|[k x] xs IH]; intros Hall Hwf Hne f seen rest Hf;
    [congruence|].
  inversion Hall as [|? ? Hx Hxs]; subst. destruct Hwf as [Hwx Hwxs].
  simpl in Hx, Hwx.
  simpl in Hf. destruct f as [|f]; [lia|].
  cbn [List.map]. rewrite join_cons, encode_pair_app. cbn [fst snd].
  rewrite scan_pairs_step, scanstring_encoded.
  cbn [skip_ws is_ws N.eqb Pos.eqb orb].
  destruct xs as [|y ys]; cbn [List.map]; cbv iota.
  - rewrite skip_ws_starts_value by apply encode_starts_value.
    rewrite (Hx Hwx (S level) f _ ltac:(lia) (ends_value_newline level _)).
    rewrite skip_ws_newline_indent. simpl. reflexivity.
  - rewrite skip_ws_starts_value by apply encode_starts_value.
    rewrite (Hx Hwx (S level) f _ ltac:(lia)
               (ends_value_separator (S level) _)).
    unfold separator at 1. cbn [app skip_ws is_ws N.eqb Pos.eqb orb].
    rewrite skip_ws_newline_indent.
    cbn [List.map] in *.
    assert (forall s, skip_ws (encode_pair (S level) y ++ s)
                      = encode_pair (S level) y ++ s) as Hq.
    { intros s. rewrite encode_pair_app. reflexivity. }
    rewrite join_cons, Hq, <- join_cons.
    rewrite (IH Hxs Hwxs ltac:(discriminate) f ((k, x) :: seen) rest).
    + simpl. rewrite <- app_assoc. reflexivity.
    + simpl in *. lia.
Qed.

Lemma str_eqb_neq (a b : str) : a <> b -> str_eqb a b = false.
Proof.
  intros H. destruct (str_eqb a b) eqn:E; [|reflexivity].
  apply str_eqb_eq in E. contradiction.
Qed.

Lemma dict_set_fresh (key : str) (v : json) (d : dict) :
  ~ In key (List.map fst d) -> dict_set key v d = d ++ [(key, v)].
Proof.
  induction d as [|[k w] d IH]; simpl; intros H; [reflexivity|].
  rewrite str_eqb_neq by tauto. rewrite IH by tauto. reflexivity.
Qed.

Lemma dict_of_pairs_distinct (pairs : list (str * json)) :
  NoDup (List.map fst pairs) -> dict_of_pairs pairs = pairs.
Proof.
  unfold dict_of_pairs.
  assert (forall acc, NoDup (List.map fst (acc ++ pairs)) ->
            fold_left (fun d kv => dict_set (fst kv) (snd kv) d) pairs acc
            = acc ++ pairs) as H.
  { induction pairs as [|[k v] ps IH]; intros acc Hnd; simpl.
    - rewrite app_nil_r. reflexivity.
    - rewrite dict_set_fresh.
      + rewrite IH; rewrite <- app_assoc; [reflexivity | exact Hnd].
      + rewrite map_app in Hnd. simpl in Hnd.
        apply NoDup_remove_2 in Hnd. intros Hin. apply Hnd.
        apply in_or_app. left. exact Hin. }
  intros Hnd. apply (H []). exact Hnd.
Qed.

Lemma scan_once_number (f : nat) (c : char) (r : str) :
  is_ascii_digit c = true \/ c = 45%N ->
  scan_once (S f) (c :: r) = scan_number (c :: r).
Proof.
  intros H.
  assert (c <> 34 /\ c <> 123 /\ c <> 91 /\ c <> 110 /\ c <> 116 /\ c <> 102)%N
    as (A & B & C & D & E & F).
  { destruct H as [H| ->]; [|repeat split; discriminate].
    unfold is_ascii_digit, c_zero, c_nine in H.
    apply andb_true_iff in H. destruct H as [H1 H2].
    apply N.leb_le in H1, H2. lia. }
  apply N.eqb_neq in A, B, C, D, E, F.
  cbn [scan_once]. rewrite A, B, C, D, E, F. reflexivity.
Qed.

Lemma str_of_int_head (z : Z) :
  exists c tl, str_of_int z = c :: tl /\ (is_ascii_digit c = true \/ c = 45%N).
Proof.
  destruct z as [|p|p]; unfold str_of_int.
  - destruct (str_of_N_head 0) as (c & tl & -> & H); eauto.
  - destruct (str_of_N_head (Npos p)) as (c & tl & -> & H); eauto.
  - eauto.
Qed.

Lemma join_starts_value {A : Type} (enc : A -> str) (sep : str)
    (x : A) (xs : list A) (tail : str) :
  (forall s, starts_value (enc x ++ s)) ->
  starts_value (join sep (List.map enc (x :: xs)) ++ tail).
Proof. intros H. cbn [List.map]. rewrite join_cons. apply H. Qed.

Ltac skip_to_value H :=
  rewrite skip_ws_newline_indent;
  match goal with
  | |- context [skip_ws ?t] => rewrite (skip_ws_starts_value t) by (apply H)
  end.

(** Every value with distinct keys is read back from its text. *)
Theorem scan_once_encode (v : json) : reads_back v.
Proof.
  induction v using json_nested_ind; intros Hwf level f rest Hf Hrest.
  - destruct f; [simpl in Hf; lia | reflexivity].
  - destruct f; [simpl in Hf; lia | destruct b; reflexivity].
  - destruct f; [simpl in Hf; lia|].
    cbn [encode].
    destruct (str_of_int_head z) as (c & tl & E & Hc).
    pose proof (scan_number_str_of_int z rest Hrest) as Hn.
    rewrite E in *. cbn [app] in *.
    rewrite scan_once_number by assumption. exact Hn.
  - destruct f; [simpl in Hf; lia|].
    cbn [encode]. rewrite encode_basestring_app.
    cbn [scan_once N.eqb Pos.eqb]. rewrite scanstring_encoded. reflexivity.
  - rewrite cost_list in Hf. destruct f as [|f]; [lia|].
    destruct items as [|x xs]; [reflexivity|].
    change (all_distinct (x :: xs)) in Hwf.
    rewrite encode_list_cons. cbn [app]. rewrite <- !app_assoc.
    assert (forall tail, starts_value
              (join (separator (S level)) (List.map (encode (S level)) (x :: xs))
                 ++ tail)) as Hs.
    { intros tail. apply join_starts_value. intros s. apply encode_starts_value. }
    rewrite scan_once_open_list; skip_to_value Hs; [|apply Hs].
    apply (scan_items_join level (x :: xs) H Hwf ltac:(discriminate) f [] rest).
    lia.
  - rewrite cost_dict in Hf. destruct f as [|f]; [lia|].
    destruct pairs as [|kv xs]; [reflexivity|].
    change (NoDup (List.map fst (kv :: xs)) /\ all_distinct_values (kv :: xs))
      in Hwf.
    destruct Hwf as [Hnd Hwf].
    rewrite encode_dict_cons. cbn [app]. rewrite <- !app_assoc.
    assert (forall tail, starts_value
              (join (separator (S level))
                    (List.map (encode_pair (S level)) (kv :: xs))
                 ++ tail)) as Hs.
    { intros tail. apply join_starts_value. intros s. rewrite encode_pair_app.
      eexists; eexists; split; [reflexivity | repeat split]. }
    rewrite scan_once_open_dict; skip_to_value Hs; [|apply Hs].
    etransitivity;
      [apply (scan_pairs_join level (kv :: xs) H Hwf ltac:(discriminate) f [] rest);
       lia|].
    cbn [List.rev app]. rewrite dict_of_pairs_distinct by assumption.
    reflexivity.
Qed.

(** *** Fuel *)

Lemma join_cost (level : nat) (sep : str) (items : list json) :
  (1 <= List.length sep)%nat ->
  Forall (fun x => forall l, (cost x <= List.length (encode l x))%nat) items ->
  (items_cost items
   <= List.length (join sep (List.map (encode level) items)) + 1)%nat.
Proof.
  intros Hsep Hall. induction Hall as [|x xs Hx Hxs IH]; [simpl; lia|].
  specialize (Hx level). cbv beta in Hx. destruct xs as [|y ys].
  - simpl. lia.
  - cbn [List.map join items_cost] in *. rewrite !length_app. lia.
Qed.

Lemma join_pairs_cost (level : nat) (sep : str) (pairs : list (str * json)) :
  (1 <= List.length sep)%nat ->
  Forall (fun kv => forall l, (cost (snd kv) <= List.length (encode l (snd kv)))%nat)
         pairs ->
  (pairs_cost pairs
   <= List.length (join sep (List.map (encode_pair level) pairs)) + 1)%nat.
Proof.
  intros Hsep Hall. induction Hall as [|kv xs Hx Hxs IH]; [simpl; lia|].
  specialize (Hx level). cbv beta in Hx.
  assert (cost (snd kv) <= List.length (encode_pair level kv))%nat as Hp.
  { unfold encode_pair. rewrite !length_app. lia. }
  destruct xs as [|y ys].
  - cbn [List.map join pairs_cost]. lia.
  - cbn [List.map join pairs_cost] in *. rewrite !length_app. lia.
Qed.

Lemma cost_le_length (v : json) :
  forall level, (cost v <= List.length (encode level v))%nat.
Proof.
  induction v using json_nested_ind; intros level.
  - simpl. lia.
  - destruct b; simpl; lia.
  - cbn [encode cost]. destruct (str_of_int_head z) as (c & tl & -> & _).
    simpl. lia.
  - cbn [encode cost]. unfold encode_basestring. simpl. lia.
  - destruct items as [|x xs]; [simpl; lia|].
    rewrite cost_list, encode_list_cons.
    pose proof (join_cost (S level) (separator (S level)) (x :: xs)
                  ltac:(simpl; lia) H) as Hj.
    cbn [List.length]. rewrite !length_app. cbn [List.length]. lia.
  - destruct pairs as [|kv xs]; [simpl; lia|].
    rewrite cost_dict, encode_dict_cons.
    pose proof (join_pairs_cost (S level) (separator (S level)) (kv :: xs)
                  ltac:(simpl; lia) H) as Hj.
    cbn [List.length]. rewrite !length_app. cbn [List.length]. lia.
Qed.

(** [json.loads(json.dumps(v, ensure_ascii=False, indent=4))] is [v]. *)
Theorem loads_dumps (v : json) :
  distinct_keys v -> loads (dumps v) = Some v.
Proof.
  intros Hwf. unfold loads, dumps.
  pose proof (encode_starts_value 0 v []) as Hs. rewrite app_nil_r in Hs.
  rewrite (skip_ws_starts_value _ Hs).
  pose proof (scan_once_encode v Hwf 0%nat (S (List.length (encode 0 v))) []
                ltac:(pose proof (cost_le_length v 0%nat); lia) I) as Hr.
  rewrite app_nil_r in Hr. rewrite Hr. reflexivity.
Qed.

(** *** The export *)

Section ExportedDocument.

Variable rt : Runtime.

Lemma record_distinct_keys (e : Entry) : distinct_keys (record_of_entry rt e).
Proof.
  split; [|simpl; tauto].
  repeat constructor; simpl; intuition discriminate.
Qed.

Lemma dialog_data_distinct_keys (history : list Entry) :
  distinct_keys (dialog_data rt history).
Proof.
  unfold dialog_data. change (all_distinct (List.map (record_of_entry rt) history)).
  induction history as [|e es IH]; [exact I|].
  split; [exact (record_distinct_keys e) | exact IH].
Qed.

Lemma read_record_of_entry (e : Entry) :
  read_record (record_of_entry rt e) = Some (entry_fields e).
Proof. reflexivity. Qed.

Lemma read_dialog_data (history : list Entry) :
  List.map read_record (List.map (record_of_entry rt) history)
  = List.map (fun e => Some (entry_fields e)) history.
Proof.
  rewrite map_map. apply map_ext. intros e. apply read_record_of_entry.
Qed.

End ExportedDocument.

(** *** The bytes of the file *)

Section Utf8.

Local Open Scope N_scope.

(** Splitting a number at bit [k]. *)
Lemma split_at_bit (c k : N) :
  N.lor (N.shiftl (N.shiftr c k) k) (N.land c (N.ones k)) = c.
Proof.
  apply N.bits_inj. intros n. rewrite N.lor_spec, N.land_spec.
  destruct (N.lt_ge_cases n k) as [Hlow|Hhigh].
  - rewrite N.shiftl_spec_low, N.ones_spec_low by assumption.
    rewrite andb_true_r. reflexivity.
  - rewrite N.shiftl_spec_high', N.shiftr_spec', N.ones_spec_high by assumption.
    rewrite N.sub_add by assumption. rewrite andb_false_r, orb_false_r.
    reflexivity.
Qed.

Lemma land_63_lt (z : N) : N.land z 63 < 64.
Proof.
  change 63 with (N.ones 6). rewrite N.land_ones.
  apply N.mod_lt. discriminate.
Qed.

Lemma shiftr_lt (c k bound : N) : c < bound * 2 ^ k -> N.shiftr c k < bound.
Proof.
  intros H. rewrite N.shiftr_div_pow2.
  apply N.Div0.div_lt_upper_bound. lia.
Qed.

(** The six low bits of the number shifted right by six are the bits six to
    eleven. *)
Lemma low_bits_twice (c : N) :
  N.lor (N.shiftl (N.land (N.shiftr c 6) 63) 6) (N.land c 63)
  = N.land c (N.ones 12).
Proof.
  rewrite <- (split_at_bit (N.land c (N.ones 12)) 6) at 1.
  rewrite N.shiftr_land, <- N.land_assoc. reflexivity.
Qed.

Lemma low_bits_thrice (c : N) :
  N.lor (N.shiftl (N.land (N.shiftr c 12) 63) 12)
        (N.lor (N.shiftl (N.land (N.shiftr c 6) 63) 6) (N.land c 63))
  = N.land c (N.ones 18).
Proof.
  rewrite low_bits_twice.
  rewrite <- (split_at_bit (N.land c (N.ones 18)) 12) at 1.
  rewrite N.shiftr_land, <- N.land_assoc. reflexivity.
Qed.

Lemma all_pow_spec (k : nat) (P : N -> bool) :
  forall c, all_pow k c P = true ->
  forall x, (c <= x < c + 2 ^ N.of_nat k)%N -> P x = true.
Proof.
  induction k as [|k IH]; intros c H x Hx.
  - simpl in *. assert (x = c) as -> by lia. exact H.
  - cbn [all_pow] in H.
    rewrite Nat2N.inj_succ, N.pow_succ_r' in Hx.
    destruct (all_pow k c P) eqn:E1; [|discriminate].
    destruct (N.lt_ge_cases x (c + 2 ^ N.of_nat k)) as [Hlow|Hhigh].
    + apply (IH c E1). lia.
    + apply (IH _ H). lia.
Qed.

Lemma bytes_ok :
  all_pow 6 0 cont_ok = true /\ all_pow 5 0 lead2_ok = true /\
  all_pow 4 0 lead3_ok = true /\ all_pow 3 0 lead4_ok = true.
Proof. repeat split; vm_compute; reflexivity. Qed.

Lemma cont_byte (z : N) : N.land (N.lor 128 (N.land z 63)) 63 = N.land z 63.
Proof.
  apply N.eqb_eq.
  apply (all_pow_spec 6 cont_ok 0 (proj1 bytes_ok)).
  exact (conj (N.le_0_l _) (land_63_lt z)).
Qed.

Lemma utf8_char_ok_scalar (c : char) :
  (c < 1114112)%N -> utf8_char_ok c = true.
Proof.
  intros Hc. unfold utf8_char_ok, utf8_encode_char.
  destruct bytes_ok as (_ & H2 & H3 & H4).
  destruct (c <? 128) eqn:E1.
  - rewrite E1, N.eqb_refl. reflexivity.
  - apply N.ltb_ge in E1. destruct (c <? 2048) eqn:E2.
    + apply N.ltb_lt in E2.
      pose proof (all_pow_spec 5 lead2_ok 0 H2 (N.shiftr c 6)) as Hx.
      assert (N.shiftr c 6 < 32) as Hlt by (apply shiftr_lt; change (2 ^ 6) with 64; change (2 ^ 12) with 4096; change (2 ^ 18) with 262144; lia).
      specialize (Hx (conj (N.le_0_l _) Hlt)). unfold lead2_ok in Hx.
      apply andb_true_iff in Hx. destruct Hx as [Hx Hv].
      apply N.eqb_eq in Hv. rewrite Hx, Hv, cont_byte. cbn [andb].
      apply N.eqb_eq. apply (split_at_bit c 6).
    + apply N.ltb_ge in E2. destruct (c <? 65536) eqn:E3.
      * apply N.ltb_lt in E3.
        pose proof (all_pow_spec 4 lead3_ok 0 H3 (N.shiftr c 12)) as Hx.
        assert (N.shiftr c 12 < 16) as Hlt by (apply shiftr_lt; change (2 ^ 6) with 64; change (2 ^ 12) with 4096; change (2 ^ 18) with 262144; lia).
        specialize (Hx (conj (N.le_0_l _) Hlt)). unfold lead3_ok in Hx.
        apply andb_true_iff in Hx. destruct Hx as [Hx Hv].
        apply N.eqb_eq in Hv. rewrite Hx, Hv, !cont_byte. cbn [andb].
        apply N.eqb_eq. rewrite low_bits_twice. apply (split_at_bit c 12).
      * apply N.ltb_ge in E3.
        pose proof (all_pow_spec 3 lead4_ok 0 H4 (N.shiftr c 18)) as Hx.
        assert (N.shiftr c 18 < 8) as Hlt by (apply shiftr_lt; change (2 ^ 6) with 64; change (2 ^ 12) with 4096; change (2 ^ 18) with 262144; lia).
        specialize (Hx (conj (N.le_0_l _) Hlt)). unfold lead4_ok in Hx.
        apply andb_true_iff in Hx. destruct Hx as [Hx Hv].
        apply N.eqb_eq in Hv. rewrite Hx, Hv, !cont_byte. cbn [andb].
        apply N.eqb_eq. rewrite low_bits_thrice. apply (split_at_bit c 18).
Qed.

End Utf8.

Lemma utf8_decode_encode_char (c : char) (rest : list N) :
  utf8_char_ok c = true ->
  utf8_decode (utf8_encode_char c ++ rest) = c :: utf8_decode rest.
Proof.
  unfold utf8_char_ok.
  destruct (utf8_encode_char c) as [|b0 [|b1 [|b2 [|b3 [|b4 bs]]]]];
    try discriminate; intros H;
    repeat (apply andb_true_iff in H; destruct H as [H ?]);
    repeat match goal with
           | Hn : negb _ = true |- _ => apply negb_true_iff in Hn
           | He : (_ =? _)%N = true |- _ => apply N.eqb_eq in He
           end.
  all: simpl;
    repeat match goal with
           | Hc : (_ <? _)%N = _ |- _ => rewrite Hc; clear Hc
           end;
    f_equal; assumption.
Qed.

(** Text that the codec accepts comes back from its UTF-8 bytes. *)
Lemma utf8_decode_encode (s : str) :
  List.forallb utf8_encodable s = true -> utf8_decode (utf8_encode s) = s.
Proof.
  induction s as [|c s IH]; simpl; intros H; [reflexivity|].
  apply andb_true_iff in H. destruct H as [Hc Hs].
  rewrite utf8_decode_encode_char.
  - rewrite (IH Hs). reflexivity.
  - apply utf8_char_ok_scalar.
    unfold utf8_encodable in Hc. apply andb_true_iff in Hc.
    destruct Hc as [Hc _]. apply N.ltb_lt in Hc. exact Hc.
Qed.



(** A document with text outside ASCII, quotes, backslashes, control
    characters and a negative number, through the bytes and back. *)
Example loads_dumps_example :
  let v := JList [JDict [(lit "user_message", JStr (lit "Привет, <мир> \\ 😀"));
                         (lit "ai_response", JStr [34; 10; 9; 1; 127; 955]%N);
                         (lit "tokens", JInt (-12))];
                  JDict []; JList []; JNull; JBool true] in
  loads (utf8_decode (utf8_encode (dumps v))) = Some v.
Proof. vm_compute. reflexivity. Qed.

End JsonRoundTrip.
